(** * photutils.datasets.make: a shallow embedding of the image makers

    Python floats are IEEE binary64 numbers, modelled by Rocq's primitive
    floats.  Astropy models, tables, numpy's array constructors and the
    random-number generator are external collaborators: they appear here
    through the small interface the module uses (get and set a parameter by
    name, evaluate over the index grid, read and write a table column, draw
    samples). *)

From Stdlib Require Import PrimFloat ZArith List String Bool Lia.
From Stdlib Require Import FunctionalExtensionality.
Import ListNotations.
Open Scope string_scope.

(** ** Exceptions raised (or propagated) by the module *)

Inductive Exc :=
| ZerosTypeError             (* np.zeros given an array of floats as shape *)
| NegativeDimensions         (* numpy: negative dimensions are not allowed *)
| UnpackMismatch (got : nat) (* y, x = np.indices(...): wrong number of values *)
| UnboundLocal (name : string) (* UnboundLocalError on a local never bound *)
| KeyError (name : string)   (* astropy Table: no such column *)
| ModelError                 (* raised by the model or by discretize_model *)
| NegativeCounts             (* apply_poisson_noise: negative data *)
| MissingFluxAmplitude       (* neither amplitude nor flux column *)
| UnknownParameter (name : string) (* make_random_models_table *)
| RandomError                (* raised inside the numpy random generator *)
| SeedOutOfRange             (* numpy RandomState(seed): seed not in [0, 2**32 - 1] *)
| NotASeed.                  (* check_random_state: neither None, an int nor a RandomState *)



Inductive result (A : Type) : Type :=
| Ok (a : A)
| Err (e : Exc).
Arguments Ok {A} a.
Arguments Err {A} e.

Definition of_option {A} (e : Exc) (o : option A) : result A :=
  match o with Some a => Ok a | None => Err e end.

(** Python's [x in names] for a list of strings. *)
Definition mem (s : string) (l : list string) : bool := existsb (String.eqb s) l.

Fixpoint zip_with {A B C} (f : A -> B -> C) (l1 : list A) (l2 : list B) : list C :=
  match l1, l2 with
  | a :: l1', b :: l2' => f a b :: zip_with f l1' l2'
  | _, _ => []
  end.

(** ** Grids: 2-D float64 arrays, a list of [ny] rows of [nx] pixels *)

Definition Grid := list (list float).

Definition zeros (ny nx : Z) : Grid :=
  repeat (repeat 0%float (Z.to_nat nx)) (Z.to_nat ny).

(** [image += g] *)
Definition grid_add (image g : Grid) : Grid :=
  zip_with (zip_with PrimFloat.add) image g.

(** ** Parametric models (astropy models, external)

    A model holds the current value of each named parameter; calling it on
    the index grids and discretize_model evaluate it at its current values
    and may raise. *)

Definition Params := string -> float.

Definition upd (p : Params) (k : string) (v : float) : Params :=
  fun k' => if String.eqb k' k then v else p k'.

Record Model := {
  param_names : list string;
  values : Params;
  (* model(x, y) with y, x = np.indices((ny, nx)) *)
  call : Params -> Z -> Z -> option Grid;
  (* discretize_model(model, (0, nx), (0, ny), mode='oversample', factor) *)
  discretize : Params -> float -> Z -> Z -> option Grid
}.

(** [getattr(model, p)] on an astropy model gives the model's Parameter
    object [p], not a number: a live view of the model's value of [p], which
    follows every later [setattr(model, p, ...)]. *)
Inductive Param := ParamOf (name : string).

Definition getattr (m : Model) (p : string) : Param := ParamOf p.

(** The value a Parameter holds when the model is in state [m]. *)
Definition param_value (m : Model) (prm : Param) : float :=
  match prm with ParamOf p => values m p end.

Definition setattr (m : Model) (p : string) (v : float) : Model :=
  {| param_names := param_names m; values := upd (values m) p v;
     call := call m; discretize := discretize m |}.

(** ** Tables (astropy Table, external)

    A row maps a column name to its value; [colnames] lists the columns in
    order (astropy keeps them unique). *)

Definition Row := string -> float.

Record Table := { colnames : list string; rows : list Row }.

(** ** make_model_sources_image *)

(** The first argument: a shape tuple, or an array (the docstring says the
    sources are then added to it). *)
Inductive ShapeArg :=
| ShapeTuple (s : list Z)
| Buffer (g : Grid).

(** [np.zeros(image_shape, dtype=np.float64)], as far as it decides success:
    an array is read as a sequence of dimensions, and a row of floats is no
    integer; a negative dimension is refused. *)
Definition np_zeros_shape (a : ShapeArg) : result (list Z) :=
  match a with
  | Buffer [] => Ok []
  | Buffer (_ :: _) => Err ZerosTypeError
  | ShapeTuple s =>
      if existsb (fun d => (d <? 0)%Z) s then Err NegativeDimensions else Ok s
  end.

(** [y, x = np.indices(image_shape)]: np.indices returns one index array
    per dimension, unpacked into two names. *)
Definition unpack_yx (s : list Z) : result (Z * Z) :=
  match s with
  | [ny; nx] => Ok (ny, nx)
  | _ => Err (UnpackMismatch (List.length s))
  end.

Definition params_to_set (m : Model) (t : Table) : list string :=
  filter (fun c => mem c (param_names m)) (colnames t).

(** Python dict assignment [d[k] = v]: a new key goes last, an existing one
    keeps its place. *)
Fixpoint dict_set {V} (d : list (string * V)) (k : string) (v : V) : list (string * V) :=
  match d with
  | [] => [(k, v)]
  | (k', v') :: d' => if String.eqb k k' then (k, v) :: d' else (k', v') :: dict_set d' k v
  end.

(** [init_params = {pnm: getattr(model, pnm) for pnm in params_to_set}] *)
Definition init_params (m : Model) (ps : list string) : list (string * Param) :=
  fold_left (fun d p => dict_set d p (getattr m p)) ps [].

(** [for paramnm in params_to_set: setattr(model, paramnm, source[paramnm])];
    [paramnm] is a local of the function: it keeps its last binding after
    the loop, and stays unbound ([None]) until the loop body first runs. *)
Fixpoint set_row (m : Model) (source : Row) (ps : list string) (paramnm : option string)
  : Model * option string :=
  match ps with
  | [] => (m, paramnm)
  | p :: ps' => set_row (setattr m p (source p)) source ps' (Some p)
  end.

Definition eval_model (m : Model) (ny nx : Z) (oversample : float) : result Grid :=
  if PrimFloat.eqb oversample 1%float
  then of_option ModelError (call m (values m) ny nx)
  else of_option ModelError (discretize m (values m) oversample ny nx).

(** The body of the [try]: the loop over the rows. *)
Fixpoint row_loop (m : Model) (image : Grid) (paramnm : option string) (ps : list string)
  (rs : list Row) (ny nx : Z) (oversample : float) : Model * option string * result Grid :=
  match rs with
  | [] => (m, paramnm, Ok image)
  | source :: rs' =>
      let '(m1, pn1) := set_row m source ps paramnm in
      match eval_model m1 ny nx oversample with
      | Err e => (m1, pn1, Err e)
      | Ok g => row_loop m1 (grid_add image g) pn1 ps rs' ny nx oversample
      end
  end.

(** The [finally] clause, as written:
    [for pnm, val in init_params.items(): setattr(model, paramnm, val)].
    Each [val] is a Parameter: astropy's [setattr] of a parameter converts
    it to a float array, which reads the value it holds at that moment. *)
Fixpoint restore (m : Model) (paramnm : option string) (items : list (string * Param))
  : Model * result unit :=
  match items with
  | [] => (m, Ok tt)
  | (_, val) :: items' =>
      match paramnm with
      | None => (m, Err (UnboundLocal "paramnm"))
      | Some p => restore (setattr m p (param_value m val)) paramnm items'
      end
  end.

(** The result (or the exception raised) and the model's state afterwards.
    An exception raised in [finally] replaces the one of the [try]. *)
Definition make_model_sources_image (image_shape : ShapeArg) (model : Model)
  (source_table : Table) (oversample : float) : result Grid * Model :=
  match np_zeros_shape image_shape with
  | Err e => (Err e, model)
  | Ok s =>
      match unpack_yx s with
      | Err e => (Err e, model)
      | Ok (ny, nx) =>
          let image := zeros ny nx in
          let ps := params_to_set model source_table in
          let init := init_params model ps in
          let '(m1, pn, r) := row_loop model image None ps (rows source_table) ny nx oversample in
          let '(m2, fin) := restore m1 pn init in
          match fin with
          | Err e => (Err e, m2)
          | Ok _ => (r, m2)
          end
      end
  end.

(** ** Table columns (astropy Table, external) *)

Definition empty_row : Row := fun _ => 0%float.

(** [t[name]] *)
Definition get_column (t : Table) (name : string) : result (list float) :=
  if mem name (colnames t) then Ok (map (fun r => r name) (rows t)) else Err (KeyError name).

(** [t[name] = vals]: replaces an existing column in place, appends a new
    one; the first column of an empty table sets the rows.  Both callers
    below pass a column of the table's length. *)
Definition set_column (t : Table) (name : string) (vals : list float) : Table :=
  {| colnames := if mem name (colnames t) then colnames t else colnames t ++ [name];
     rows := match colnames t with
             | [] => map (fun v => upd empty_row name v) vals
             | _ => zip_with (fun r v => upd r name v) (rows t) vals
             end |}.

(** [del t[name]] *)
Definition del_column (t : Table) (name : string) : Table :=
  {| colnames := remove string_dec name (colnames t); rows := rows t |}.

(** Adding a column [name] of values [vals] to a table that lacks it. *)
Definition add_column (t : Table) (name : string) (vals : list float) : Table :=
  {| colnames := colnames t ++ [name];
     rows := zip_with (fun r v => upd r name v) (rows t) vals |}.

(** ** Table objects and references

    Tables are mutable Python objects: [heap] maps references to the table
    objects allocated so far ([next_ref] is the first free reference). *)

Record Store := { heap : nat -> Table; next_ref : nat }.

Definition store_put (st : Store) (r : nat) (t : Table) : Store :=
  {| heap := fun r' => if Nat.eqb r' r then t else heap st r'; next_ref := next_ref st |}.

(** [t.copy()]: a new object. *)
Definition table_copy (st : Store) (r : nat) : nat * Store :=
  let r' := next_ref st in
  (r', {| heap := fun q => if Nat.eqb q r' then heap st r else heap st q;
          next_ref := S r' |}).

(** ** make_gaussian_sources_image *)

Definition np_pi : float := 0x1.921fb54442d18p+1%float.

(** [source_table['flux'] / (2. * np.pi * source_table['x_stddev']
    * source_table['y_stddev'])], elementwise and left to right. *)
Definition flux_to_amplitude (t : Table) : result (list float) :=
  match get_column t "flux", get_column t "x_stddev", get_column t "y_stddev" with
  | Ok f, Ok sx, Ok sy =>
      Ok (zip_with PrimFloat.div f
            (zip_with PrimFloat.mul (map (fun a => PrimFloat.mul (2 * np_pi)%float a) sx) sy))
  | Err e, _, _ | _, Err e, _ | _, _, Err e => Err e
  end.

(** [Gaussian2D(x_stddev=1, y_stddev=1)]: astropy's model, with its
    defaults amplitude=1, x_mean=0, y_mean=0, theta=0; its evaluation
    [g_call] and discretization [g_disc] are astropy's. *)
Definition gaussian2d (g_call : Params -> Z -> Z -> option Grid)
  (g_disc : Params -> float -> Z -> Z -> option Grid) : Model :=
  {| param_names := ["amplitude"; "x_mean"; "y_mean"; "x_stddev"; "y_stddev"; "theta"];
     values := fun p => if String.eqb p "amplitude" then 1%float
                        else if String.eqb p "x_stddev" then 1%float
                        else if String.eqb p "y_stddev" then 1%float
                        else 0%float;
     call := g_call; discretize := g_disc |}.

(** The source table is the object at reference [r] of [st]; the result and
    the store afterwards. *)
Definition make_gaussian_sources_image g_call g_disc (st : Store) (image_shape : ShapeArg)
  (r : nat) (oversample : float) : result Grid * Store :=
  let model := gaussian2d g_call g_disc in
  if mem "flux" (colnames (heap st r)) then
    let '(r1, st1) := table_copy st r in
    match flux_to_amplitude (heap st1 r1) with
    | Err e => (Err e, st1)
    | Ok amplitude =>
        let st2 := store_put st1 r1 (set_column (heap st1 r1) "amplitude" amplitude) in
        let st3 := store_put st2 r1 (del_column (heap st2 r1) "flux") in
        (fst (make_model_sources_image image_shape model (heap st3 r1) oversample), st3)
    end
  else if negb (mem "amplitude" (colnames (heap st r))) then (Err MissingFluxAmplitude, st)
  else (fst (make_model_sources_image image_shape model (heap st r) oversample), st).

(** ** Random draws (numpy RandomState, external)

    A generator state has type [RNG]; a draw returns the samples and the
    next state, or raises.  The [random_state] argument is None, an int
    seed, a RandomState object, or any other Python object. *)

Inductive RandomState (RNG : Type) :=
| RSNone
| RSSeed (seed : Z)
| RSObject (g : RNG)
| RSOther.
Arguments RSNone {RNG}.
Arguments RSSeed {RNG} seed.
Arguments RSObject {RNG} g.
Arguments RSOther {RNG}.

(** [photutils.utils.check_random_state(seed)] (defined outside this
    file): None gives numpy's global RandomState [global_rng]; an int gives
    [np.random.RandomState(seed)], which numpy refuses with a ValueError
    unless [0 <= seed < 2**32]; a RandomState is returned as it is; any
    other object raises ValueError. *)
Definition check_random_state {RNG} (global_rng : RNG) (seeded : Z -> RNG)
  (seed : RandomState RNG) : result RNG :=
  match seed with
  | RSNone => Ok global_rng
  | RSSeed z => if ((0 <=? z) && (z <? 2 ^ 32))%Z then Ok (seeded z) else Err SeedOutOfRange
  | RSObject g => Ok g
  | RSOther => Err NotASeed
  end.

Section Random.
Variable RNG : Type.
Variable global_rng : RNG.
Variable seeded : Z -> RNG.

(** [prng.poisson(data)]: one draw per element, in C order, with the
    element as the expectation; [draw1] draws one sample. *)
Variable draw1 : RNG -> float -> option (float * RNG).

Fixpoint poisson_row (row : list float) (g : RNG) : result (list float * RNG) :=
  match row with
  | [] => Ok ([], g)
  | lam :: row' =>
      match draw1 g lam with
      | None => Err RandomError
      | Some (k, g1) =>
          match poisson_row row' g1 with
          | Err e => Err e
          | Ok (ks, g2) => Ok (k :: ks, g2)
          end
      end
  end.

Fixpoint np_poisson (data : Grid) (g : RNG) : result (Grid * RNG) :=
  match data with
  | [] => Ok ([], g)
  | row :: data' =>
      match poisson_row row g with
      | Err e => Err e
      | Ok (ks, g1) =>
          match np_poisson data' g1 with
          | Err e => Err e
          | Ok (kss, g2) => Ok (ks :: kss, g2)
          end
      end
  end.

(** [np.any(data < 0)] *)
Definition any_negative (data : Grid) : bool :=
  existsb (existsb (fun x => PrimFloat.ltb x 0%float)) data.

Definition apply_poisson_noise (data : Grid) (g : RNG) : result Grid :=
  if any_negative data then Err NegativeCounts
  else match np_poisson data g with
       | Err e => Err e
       | Ok (out, _) => Ok out
       end.

(** [prng.uniform(lower, upper, n_sources)] *)
Variable uniform : RNG -> float -> float -> Z -> option (list float * RNG).

(** The loop over [param_ranges.items()], in insertion order. *)
Fixpoint fill_ranges (names : list string) (n_sources : Z)
  (ranges : list (string * (float * float))) (sources : Table) (g : RNG) : result Table :=
  match ranges with
  | [] => Ok sources
  | (pnm, (lower, upper)) :: ranges' =>
      if negb (mem pnm names) then Err (UnknownParameter pnm)
      else match uniform g lower upper n_sources with
           | None => Err RandomError
           | Some (vals, g1) => fill_ranges names n_sources ranges' (set_column sources pnm vals) g1
           end
  end.

Definition make_random_models_table (model : Model) (n_sources : Z)
  (param_ranges : list (string * (float * float))) (random_state : RandomState RNG) : result Table :=
  match check_random_state global_rng seeded random_state with
  | Err e => Err e
  | Ok prng => fill_ranges (param_names model) n_sources param_ranges {| colnames := []; rows := [] |} prng
  end.

End Random.

(** numpy's [RandomState.uniform(low, high, size)] refuses a range
    [high - low] that is not finite (OverflowError) and a negative size
    before it samples; [gen] is the sampling itself. *)
Definition np_uniform {RNG} (gen : RNG -> float -> float -> nat -> list float * RNG)
  (g : RNG) (low high : float) (size : Z) : option (list float * RNG) :=
  if negb (is_finite (high - low)%float) then None
  else if (size <? 0)%Z then None
  else Some (gen g low high (Z.to_nat size)).

(** ** Exceptions of the remaining functions

    [make_noise_image] and [make_random_gaussians_table] raise exceptions
    of their own besides those above. *)

Inductive Exc' :=
| Base (e : Exc)                 (* an exception of the list above *)
| IndexError                     (* a range with fewer than two entries *)
| MeanNotInput                   (* make_noise_image: mean must be input *)
| StddevNotInput.                (* make_noise_image: stddev must be input *)

Inductive result' (A : Type) : Type :=
| Ok' (a : A)
| Err' (e : Exc').
Arguments Ok' {A} a.
Arguments Err' {A} e.

Definition bind' {A B} (r : result' A) (k : A -> result' B) : result' B :=
  match r with Ok' a => k a | Err' e => Err' e end.

Notation "x <- r ;; k" := (bind' r (fun x => k)) (at level 61, r at next level, right associativity).

(** An exception of [check_random_state], in the wider type. *)
Definition lift {A} (r : result A) : result' A :=
  match r with Ok a => Ok' a | Err e => Err' (Base e) end.

Section MoreRandom.
Variable RNG : Type.
Variable global_rng : RNG.
Variable seeded : Z -> RNG.

(** ** make_noise_image

    [prng.normal(loc, scale, size)] and [prng.poisson(lam, size)]: numpy's
    draws of an array of the given shape ([None] when numpy raises). *)
Variable normal : RNG -> float -> float -> list Z -> option Grid.
Variable poisson_lam : RNG -> float -> list Z -> option Grid.

(** The message of the last branch,
    ['Invalid type: {0}. Use one of {"gaussian", "poisson"}.'.format(type)],
    holds a second replacement field, named ["gaussian", "poisson"] with its
    quotes: [str.format] looks that name up among its keyword arguments and
    raises KeyError with it before the ValueError is built. *)
Definition dquote : string := String.String (Ascii.ascii_of_nat 34) EmptyString.

Definition invalid_type_field : string :=
  dquote ++ "gaussian" ++ dquote ++ ", " ++ dquote ++ "poisson" ++ dquote.

Definition make_noise_image (image_shape : list Z) (type : string)
  (mean stddev : option float) (random_state : RandomState RNG) : result' Grid :=
  match mean with
  | None => Err' MeanNotInput
  | Some mu =>
      g <- lift (check_random_state global_rng seeded random_state) ;;
      if String.eqb type "gaussian" then
        match stddev with
        | None => Err' StddevNotInput
        | Some sd =>
            match normal g mu sd image_shape with
            | Some img => Ok' img
            | None => Err' (Base RandomError)
            end
        end
      else if String.eqb type "poisson" then
        match poisson_lam g mu image_shape with
        | Some img => Ok' img
        | None => Err' (Base RandomError)
        end
      else Err' (Base (KeyError invalid_type_field))
  end.

(** ** make_random_gaussians_table *)

Variable uniform : RNG -> float -> float -> Z -> option (list float * RNG).

(** [(r[0], r[1])] for a range given as a list. *)
Definition bounds (r : list float) : result' (float * float) :=
  match r with
  | lo :: hi :: _ => Ok' (lo, hi)
  | _ => Err' IndexError
  end.

(** [sources[name] = prng.uniform(lo, hi, n_sources)] *)
Definition draw_column (sources : Table) (name : string) (lo hi : float) (n_sources : Z)
  (g : RNG) : result' (Table * RNG) :=
  match uniform g lo hi n_sources with
  | None => Err' (Base RandomError)
  | Some (vals, g1) => Ok' (set_column sources name vals, g1)
  end.

Definition draw_range (sources : Table) (name : string) (r : list float) (n_sources : Z)
  (g : RNG) : result' (Table * RNG) :=
  lh <- bounds r ;; draw_column sources name (fst lh) (snd lh) n_sources g.

Definition make_random_gaussians_table (n_sources : Z)
  (flux_range xmean_range ymean_range xstddev_range ystddev_range : list float)
  (amplitude_range : option (list float)) (random_state : RandomState RNG) : result' Table :=
  g <- lift (check_random_state global_rng seeded random_state) ;;
  let sources := {| colnames := []; rows := [] |} in
  s1 <- match amplitude_range with
        | None => draw_range sources "flux" flux_range n_sources g
        | Some ar => draw_range sources "amplitude" ar n_sources g
        end ;;
  s2 <- draw_range (fst s1) "x_mean" xmean_range n_sources (snd s1) ;;
  s3 <- draw_range (fst s2) "y_mean" ymean_range n_sources (snd s2) ;;
  s4 <- draw_range (fst s3) "x_stddev" xstddev_range n_sources (snd s3) ;;
  s5 <- draw_range (fst s4) "y_stddev" ystddev_range n_sources (snd s4) ;;
  s6 <- draw_column (fst s5) "theta" 0%float (2 * np_pi)%float n_sources (snd s5) ;;
  Ok' (fst s6).

End MoreRandom.

(** ** Concrete inputs used by the examples below *)

(** The table of a successful call, for the examples. *)
Definition ok_table (r : result' Table) : Table :=
  match r with Ok' t => t | Err' _ => {| colnames := []; rows := [] |} end.

(** A model with parameters amplitude = 1 and x_mean = 0 whose evaluation
    returns a zero grid. *)
Definition ex_model : Model :=
  {| param_names := ["amplitude"; "x_mean"];
     values := fun p => if String.eqb p "amplitude" then 1%float else 0%float;
     call := fun _ ny nx => Some (zeros ny nx);
     discretize := fun _ _ ny nx => Some (zeros ny nx) |}.

(** One source: amplitude 5, x_mean 3. *)
Definition ex_table : Table :=
  {| colnames := ["amplitude"; "x_mean"];
     rows := [fun c => if String.eqb c "amplitude" then 5%float else 3%float] |}.

Definition last_row (t : Table) : Row := last (rows t) empty_row.

(** One source whose only column the model knows is amplitude. *)
Definition ex_table1 : Table :=
  {| colnames := ["amplitude"; "flux_err"];
     rows := [fun c => if String.eqb c "amplitude" then 5%float else 1%float] |}.


(** A grid of [ny] rows of [nx] pixels. *)
Definition has_shape (g : Grid) (ny nx : Z) : Prop :=
  List.length g = Z.to_nat ny /\ Forall (fun row => List.length row = Z.to_nat nx) g.


(** ** Lemmas on the renderer *)

Lemma mem_cons q p ps : mem q (p :: ps) = String.eqb q p || mem q ps.
Proof. reflexivity. Qed.

Lemma mem_In q l : mem q l = true <-> In q l.
Proof.
  unfold mem. rewrite existsb_exists. split.
  - intros [x [Hx E]]. apply String.eqb_eq in E. subst. exact Hx.
  - intros H. exists q. split; [exact H | apply String.eqb_refl].
Qed.

Lemma last_cons_default {A} (l : list A) (a d : A) : last (a :: l) d = last l a.
Proof.
  revert a d. induction l as [|b l IH]; intros a d; [reflexivity|].
  change (last (b :: l) d = last (b :: l) a). rewrite !IH. reflexivity.
Qed.

Lemma last_default {A} (l : list A) (d d' : A) : l <> [] -> last l d = last l d'.
Proof.
  destruct l as [|a l]; [congruence|]. intros _. rewrite !last_cons_default. reflexivity.
Qed.

Lemma last_map {A B} (f : A -> B) (l : list A) (d : A) : last (map f l) (f d) = f (last l d).
Proof.
  revert d. induction l as [|a l IH]; intros d; [reflexivity|].
  simpl map. rewrite !last_cons_default. apply IH.
Qed.

Lemma set_row_values ps : forall m source b q,
  values (fst (set_row m source ps b)) q = if mem q ps then source q else values m q.
Proof.
  induction ps as [|p ps IH]; intros m source b q; [reflexivity|].
  simpl set_row. rewrite IH, mem_cons. unfold setattr, upd; simpl.
  destruct (String.eqb q p) eqn:E; simpl.
  - apply String.eqb_eq in E. subst. destruct (mem p ps); reflexivity.
  - reflexivity.
Qed.

Lemma set_row_names ps : forall m source b,
  param_names (fst (set_row m source ps b)) = param_names m.
Proof. induction ps as [|p ps IH]; intros; simpl; [reflexivity | rewrite IH; reflexivity]. Qed.

Lemma set_row_paramnm ps : forall m source b,
  snd (set_row m source ps b) = match ps with [] => b | _ => Some (last ps "") end.
Proof.
  induction ps as [|p ps IH]; intros m source b; [reflexivity|].
  simpl set_row. rewrite IH. destruct ps; reflexivity.
Qed.

Lemma row_loop_spec ps rs : forall m image b ny nx ov m' pn r,
  row_loop m image b ps rs ny nx ov = (m', pn, r) ->
  param_names m' = param_names m /\
  (forall q, mem q ps = false -> values m' q = values m q) /\
  (rs = [] -> m' = m /\ pn = b /\ r = Ok image) /\
  (rs <> [] -> ps <> [] -> pn = Some (last ps "")) /\
  (forall g, r = Ok g -> rs <> [] -> forall q, mem q ps = true -> values m' q = last rs empty_row q).
Proof.
  induction rs as [|source rs IH]; intros m image b ny nx ov m' pn r H.
  - simpl in H. inversion H; subst. repeat split; congruence.
  - simpl in H. destruct (set_row m source ps b) as [m1 pn1] eqn:SR.
    assert (N1 : param_names m1 = param_names m)
      by (pose proof (set_row_names ps m source b) as E; rewrite SR in E; exact E).
    assert (V1 : forall q, values m1 q = if mem q ps then source q else values m q)
      by (intro q; pose proof (set_row_values ps m source b q) as E; rewrite SR in E; exact E).
    assert (P1 : ps <> [] -> pn1 = Some (last ps ""))
      by (intro Hps; pose proof (set_row_paramnm ps m source b) as E; rewrite SR in E;
          simpl in E; rewrite E; destruct ps; [congruence | reflexivity]).
    destruct (eval_model m1 ny nx ov) as [g|e].
    + destruct (IH _ _ _ _ _ _ _ _ _ H) as (Hn & Hv & Hnil & Hpn & Hlast).
      split; [congruence|]. split.
      { intros q Hq. rewrite Hv by exact Hq. rewrite V1, Hq. reflexivity. }
      split; [discriminate|]. split.
      { intros _ Hps. destruct rs as [|s' rs].
        - destruct (Hnil eq_refl) as (_ & -> & _). apply P1, Hps.
        - apply Hpn; [discriminate | exact Hps]. }
      intros g' Hr _ q Hq. destruct rs as [|s' rs].
      * destruct (Hnil eq_refl) as (-> & _ & _). rewrite V1, Hq. reflexivity.
      * rewrite (Hlast g' Hr ltac:(discriminate) q Hq). reflexivity.
    + inversion H; subst. split; [exact N1|]. split.
      { intros q Hq. rewrite V1, Hq. reflexivity. }
      split; [discriminate|]. split; [intros _; exact P1|]. discriminate.
Qed.

(** The value the [finally] loop leaves in [p] when every write goes to
    [p], starting from [v]: a Parameter other than [p] still holds its
    value in [m], the Parameter [p] holds the value written last. *)
Fixpoint restored_value (m : Model) (p : string) (items : list (string * Param)) (v : float)
  : float :=
  match items with
  | [] => v
  | (_, ParamOf r) :: items' => restored_value m p items' (if String.eqb r p then v else values m r)
  end.

Lemma restored_value_setattr items : forall m p w v,
  restored_value (setattr m p w) p items v = restored_value m p items v.
Proof.
  induction items as [|[k [r]] items IH]; intros m p w v; [reflexivity|].
  simpl. rewrite IH. unfold upd. destruct (String.eqb r p); reflexivity.
Qed.

Lemma restored_value_app l1 : forall l2 m p v,
  restored_value m p (l1 ++ l2) v = restored_value m p l2 (restored_value m p l1 v).
Proof. induction l1 as [|[k [r]] l1 IH]; intros; simpl; [reflexivity | apply IH]. Qed.

Lemma restored_value_fresh m0 m p ps : forall v, ~ In p ps ->
  restored_value m p (map (fun r => (r, getattr m0 r)) ps) v = last (map (values m) ps) v.
Proof.
  induction ps as [|r ps IH]; intros v Hp; [reflexivity|].
  simpl map. rewrite last_cons_default. simpl restored_value.
  assert (E : String.eqb r p = false) by (apply String.eqb_neq; intros ->; apply Hp; left; reflexivity).
  rewrite E. apply IH. intros Hin. apply Hp. right. exact Hin.
Qed.

Lemma restored_value_last m0 m ps :
  NoDup ps -> ps <> [] ->
  restored_value m (last ps "") (map (fun r => (r, getattr m0 r)) ps) (values m (last ps ""))
  = last (map (values m) (removelast ps)) (values m (last ps "")).
Proof.
  intros Hnd Hne. set (L := last ps "") in *. set (ps' := removelast ps).
  assert (E : ps = (ps' ++ [L])%list) by (apply app_removelast_last; exact Hne).
  assert (HL : ~ In L ps').
  { rewrite E in Hnd. pose proof (NoDup_remove_2 ps' [] L Hnd) as N. rewrite app_nil_r in N. exact N. }
  rewrite E at 1. rewrite map_app, restored_value_app. simpl. rewrite String.eqb_refl.
  apply restored_value_fresh, HL.
Qed.

Lemma last_In {A} (l : list A) d : l <> [] -> In (last l d) l.
Proof.
  induction l as [|a l IH]; intros H; [contradiction|].
  destruct l as [|b l]; [left; reflexivity|]. right. apply IH. discriminate.
Qed.

Lemma In_removelast {A} (l : list A) x : In x (removelast l) -> In x l.
Proof.
  induction l as [|a l IH]; [contradiction|]. destruct l as [|b l]; [contradiction|].
  simpl. intros [H|H]; [left; exact H | right; apply IH, H].
Qed.

Lemma restore_some items : forall m p,
  snd (restore m (Some p) items) = Ok tt /\
  forall q, values (fst (restore m (Some p) items)) q =
            if String.eqb q p then restored_value m p items (values m p) else values m q.
Proof.
  induction items as [|[k [r]] items IH]; intros m p.
  - split; [reflexivity|]. intro q. simpl.
    destruct (String.eqb q p) eqn:E; [apply String.eqb_eq in E; subst|]; reflexivity.
  - simpl restore. destruct (IH (setattr m p (param_value m (ParamOf r))) p) as [H1 H2].
    split; [exact H1|].
    intro q. rewrite H2, restored_value_setattr. simpl restored_value.
    unfold setattr, upd; simpl. rewrite String.eqb_refl.
    destruct (String.eqb q p); [|reflexivity].
    destruct (String.eqb r p) eqn:E; [apply String.eqb_eq in E; subst|]; reflexivity.
Qed.

Lemma dict_set_fresh {V} (d : list (string * V)) k v : ~ In k (map fst d) -> dict_set d k v = (d ++ [(k, v)])%list.
Proof.
  induction d as [|[k' v'] d IH]; intros H; [reflexivity|].
  simpl in H. simpl. destruct (String.eqb k k') eqn:E.
  - apply String.eqb_eq in E. subst. exfalso. apply H. left. reflexivity.
  - rewrite IH; [reflexivity|]. intro Hin. apply H. right. exact Hin.
Qed.

Lemma init_params_nodup m ps : forall acc, NoDup ps ->
  (forall p, In p ps -> ~ In p (map fst acc)) ->
  fold_left (fun d p => dict_set d p (getattr m p)) ps acc
  = (acc ++ map (fun p => (p, getattr m p)) ps)%list.
Proof.
  induction ps as [|p ps IH]; intros acc Hnd Hfresh; simpl; [rewrite app_nil_r; reflexivity|].
  inversion Hnd as [|? ? Hp Hnd']; subst.
  rewrite dict_set_fresh by (apply Hfresh; left; reflexivity).
  rewrite IH; [rewrite <- app_assoc; reflexivity | exact Hnd'|].
  intros p' Hp' Hin. rewrite map_app in Hin. apply in_app_or in Hin. destruct Hin as [Hin|Hin].
  - exact (Hfresh p' (or_intror Hp') Hin).
  - simpl in Hin. destruct Hin as [E|[]]. subst. exact (Hp Hp').
Qed.

Lemma init_params_map m ps : NoDup ps -> init_params m ps = map (fun p => (p, getattr m p)) ps.
Proof. intros H. unfold init_params. rewrite init_params_nodup; auto. Qed.

Lemma dict_set_nonempty {V} (d : list (string * V)) k v : dict_set d k v <> [].
Proof. destruct d as [|[k' v'] d]; simpl; [|destruct (String.eqb k k')]; discriminate. Qed.

Lemma init_params_nonempty m ps : ps <> [] -> init_params m ps <> [].
Proof.
  unfold init_params. destruct ps as [|p ps]; [congruence|]. intros _. simpl.
  assert (H0 : [(p, getattr m p)] <> []) by discriminate. revert H0.
  generalize [(p, getattr m p)].
  induction ps as [|p' ps IH]; intros acc Hacc; simpl; [exact Hacc|].
  apply IH, dict_set_nonempty.
Qed.

Lemma make_ok_inv shape model t ov g m' :
  make_model_sources_image shape model t ov = (Ok g, m') ->
  exists ny nx m1 pn,
    row_loop model (zeros ny nx) None (params_to_set model t) (rows t) ny nx ov = (m1, pn, Ok g) /\
    restore m1 pn (init_params model (params_to_set model t)) = (m', Ok tt).
Proof.
  unfold make_model_sources_image. intros H.
  destruct (np_zeros_shape shape) as [s|e]; [|discriminate].
  destruct (unpack_yx s) as [[ny nx]|e]; [|discriminate].
  destruct (row_loop model (zeros ny nx) None (params_to_set model t) (rows t) ny nx ov)
    as [[m1 pn] r] eqn:RL.
  destruct (restore m1 pn (init_params model (params_to_set model t))) as [m2 fin] eqn:RS.
  destruct fin as [[]|e]; inversion H; subst.
  exists ny, nx, m1, pn. split; [exact RL | exact RS].
Qed.

(** After a successful call with at least one row and one matched
    column, the model's parameters are: the last matched name at the last
    row's value of the matched name before it (its own when it is the only
    one), the other matched names at the last row's values, every other
    parameter untouched. *)
Lemma final_values shape model t ov g m' :
  NoDup (colnames t) -> rows t <> [] -> params_to_set model t <> [] ->
  make_model_sources_image shape model t ov = (Ok g, m') ->
  forall q, values m' q =
    if String.eqb q (last (params_to_set model t) "")
    then last (map (last_row t) (removelast (params_to_set model t)))
              (last_row t (last (params_to_set model t) ""))
    else if mem q (params_to_set model t) then last_row t q else values model q.
Proof.
  intros Hnd Hrows Hps H q.
  destruct (make_ok_inv _ _ _ _ _ _ H) as (ny & nx & m1 & pn & RL & RS).
  destruct (row_loop_spec _ _ _ _ _ _ _ _ _ _ _ RL) as (_ & Hv & _ & Hpn & Hlast).
  rewrite (Hpn Hrows Hps) in RS.
  destruct (restore_some (init_params model (params_to_set model t)) m1
              (last (params_to_set model t) "")) as [_ Hr].
  rewrite RS in Hr. simpl in Hr. rewrite Hr.
  assert (Hnd' : NoDup (params_to_set model t)) by (apply NoDup_filter; exact Hnd).
  rewrite init_params_map by exact Hnd'.
  assert (Hin : forall p, In p (params_to_set model t) -> values m1 p = last_row t p)
    by (intros p Hp; apply (Hlast g eq_refl Hrows), mem_In, Hp).
  destruct (String.eqb q (last (params_to_set model t) "")).
  - rewrite (restored_value_last model m1 _ Hnd' Hps).
    rewrite (Hin _ (last_In _ "" Hps)). f_equal.
    apply map_ext_in. intros p Hp. apply Hin, In_removelast, Hp.
  - destruct (mem q (params_to_set model t)) eqn:Hq.
    + apply (Hlast g eq_refl Hrows q Hq).
    + apply Hv, Hq.
Qed.

(** ** Theorems *)

(** C1 (code_bug).  The source's comment says the initial values are stored
    "so we can set them back when done with the loop", but the [finally]
    loop writes every saved value to [paramnm] instead of [pnm].  With two
    matched columns and one row, the parameter amplitude (1 before the
    call) is left at the row's value 5 after a normal return. *)
Theorem restore_leaves_amplitude_changed :
  fst (make_model_sources_image (ShapeTuple [2; 2]%Z) ex_model ex_table 1%float) = Ok (zeros 2 2)
  /\ values ex_model "amplitude" = 1%float
  /\ values (snd (make_model_sources_image (ShapeTuple [2; 2]%Z) ex_model ex_table 1%float))
       "amplitude" = 5%float.
Proof. split; [|split]; reflexivity. Qed.

(** C2 (counterexample).  The captured parameters do not all end at the
    initial value of the last processed name (x_mean, 0): amplitude ends
    at 5. *)
Lemma shared_restore_value_counterexample :
  params_to_set ex_model ex_table = ["amplitude"; "x_mean"]
  /\ fst (make_model_sources_image (ShapeTuple [2; 2]%Z) ex_model ex_table 1%float) = Ok (zeros 2 2)
  /\ values (snd (make_model_sources_image (ShapeTuple [2; 2]%Z) ex_model ex_table 1%float))
       "amplitude" <> values ex_model "x_mean".
Proof.
  split; [reflexivity|]. split; [reflexivity|]. vm_compute. intros H. discriminate H.
Qed.

Lemma ex_hyps :
  NoDup (colnames ex_table) /\ rows ex_table <> [] /\ 2 <= List.length (params_to_set ex_model ex_table)
  /\ make_model_sources_image (ShapeTuple [2; 2]%Z) ex_model ex_table 1%float
     = (Ok (zeros 2 2), snd (make_model_sources_image (ShapeTuple [2; 2]%Z) ex_model ex_table 1%float)).
Proof.
  split; [repeat constructor; simpl; intuition congruence|].
  split; [discriminate|]. split; [simpl; lia | reflexivity].
Qed.

(** C2 (amended).  After a successful call with at least one row and at
    least two matched columns, no value is written into all the matched
    parameters: the restoration writes only the last matched name, and as
    each saved Parameter is live, it copies the current values in turn and
    ends at the last row's value of the matched name before it; every other
    matched parameter holds the last row's value, every unmatched one its
    initial value.  No matched parameter is set back to a pre-call value. *)
Theorem restore_writes_only_last_name shape model t ov g m' :
  NoDup (colnames t) -> rows t <> [] -> 2 <= List.length (params_to_set model t) ->
  make_model_sources_image shape model t ov = (Ok g, m') ->
  forall q, values m' q =
    if String.eqb q (last (params_to_set model t) "")
    then last (map (last_row t) (removelast (params_to_set model t)))
              (last_row t (last (params_to_set model t) ""))
    else if mem q (params_to_set model t) then last_row t q else values model q.
Proof.
  intros Hnd Hrows Hlen H. apply (final_values shape model t ov g); auto.
  destruct (params_to_set model t); [simpl in Hlen; lia | discriminate].
Qed.

Lemma restore_writes_only_last_name_witness :
  (NoDup (colnames ex_table) /\ rows ex_table <> [] /\ 2 <= List.length (params_to_set ex_model ex_table)
   /\ make_model_sources_image (ShapeTuple [2; 2]%Z) ex_model ex_table 1%float
      = (Ok (zeros 2 2), snd (make_model_sources_image (ShapeTuple [2; 2]%Z) ex_model ex_table 1%float)))
  /\ forall q,
     values (snd (make_model_sources_image (ShapeTuple [2; 2]%Z) ex_model ex_table 1%float)) q =
     if String.eqb q (last (params_to_set ex_model ex_table) "")
     then last (map (last_row ex_table) (removelast (params_to_set ex_model ex_table)))
               (last_row ex_table (last (params_to_set ex_model ex_table) ""))
     else if mem q (params_to_set ex_model ex_table) then last_row ex_table q else values ex_model q.
Proof.
  destruct ex_hyps as (H1 & H2 & H3 & H4). split; [repeat split; assumption|].
  exact (restore_writes_only_last_name _ _ _ _ _ _ H1 H2 H3 H4).
Defined.

(** C3 (counterexample).  The last matched parameter, x_mean (0 before the
    call), is not back at its pre-call value: it ends at 5, the last row's
    amplitude. *)
Lemma last_param_not_restored_counterexample :
  params_to_set ex_model ex_table = ["amplitude"; "x_mean"]
  /\ fst (make_model_sources_image (ShapeTuple [2; 2]%Z) ex_model ex_table 1%float) = Ok (zeros 2 2)
  /\ values ex_model "x_mean" = 0%float
  /\ values (snd (make_model_sources_image (ShapeTuple [2; 2]%Z) ex_model ex_table 1%float)) "x_mean"
     = 5%float.
Proof. split; [reflexivity|]. split; [reflexivity|]. split; reflexivity. Qed.

(** C3 (amended).  After a successful call with at least one row and
    matched columns ... p, L (in column order), the last matched parameter
    L holds the last row's value of p, the matched parameter before it, not
    its own pre-call value; every other matched parameter holds the last
    row's value. *)
Theorem last_param_gets_previous_param_value shape model t ov g m' ps' p L :
  NoDup (colnames t) -> rows t <> [] -> params_to_set model t = (ps' ++ [p; L])%list ->
  make_model_sources_image shape model t ov = (Ok g, m') ->
  values m' L = last_row t p
  /\ forall q, In q (params_to_set model t) -> q <> L -> values m' q = last_row t q.
Proof.
  intros Hnd Hrows Hps H.
  assert (Hne : params_to_set model t <> []) by (rewrite Hps; destruct ps'; discriminate).
  pose proof (final_values shape model t ov g m' Hnd Hrows Hne H) as F.
  assert (Hps2 : params_to_set model t = ((ps' ++ [p]) ++ [L])%list)
    by (rewrite Hps, <- app_assoc; reflexivity).
  assert (HL : last (params_to_set model t) "" = L)
    by (rewrite Hps2; apply last_last).
  rewrite HL in F. split.
  - rewrite F, String.eqb_refl, Hps2, removelast_last, map_app. apply last_last.
  - intros q Hin Hne'. rewrite F. apply String.eqb_neq in Hne'. rewrite Hne'.
    apply mem_In in Hin. rewrite Hin. reflexivity.
Qed.

Lemma last_param_gets_previous_param_value_witness :
  (NoDup (colnames ex_table) /\ rows ex_table <> []
   /\ params_to_set ex_model ex_table = ([] ++ ["amplitude"; "x_mean"])%list
   /\ make_model_sources_image (ShapeTuple [2; 2]%Z) ex_model ex_table 1%float
      = (Ok (zeros 2 2), snd (make_model_sources_image (ShapeTuple [2; 2]%Z) ex_model ex_table 1%float)))
  /\ values (snd (make_model_sources_image (ShapeTuple [2; 2]%Z) ex_model ex_table 1%float)) "x_mean"
     = last_row ex_table "amplitude".
Proof.
  destruct ex_hyps as (H1 & H2 & _ & H4).
  assert (H3 : params_to_set ex_model ex_table = ([] ++ ["amplitude"; "x_mean"])%list) by reflexivity.
  split; [exact (conj H1 (conj H2 (conj H3 H4)))|].
  exact (proj1 (last_param_gets_previous_param_value _ _ _ _ _ _ [] "amplitude" "x_mean" H1 H2 H3 H4)).
Defined.

(** C4 (code_bug).  The docstring says that when [image_shape] is an array
    the sources are added to it, but the code always calls
    [np.zeros(image_shape)]: a non-empty 2-D float array is no shape, and
    the call raises before anything is added. *)
Theorem buffer_argument_raises g model t ov :
  g <> [] -> make_model_sources_image (Buffer g) model t ov = (Err ZerosTypeError, model).
Proof. destruct g; [congruence | reflexivity]. Qed.

Lemma buffer_argument_raises_witness :
  [[0; 0]; [0; 0]]%float <> []
  /\ make_model_sources_image (Buffer [[0; 0]; [0; 0]]%float) ex_model ex_table 1%float
     = (Err ZerosTypeError, ex_model).
Proof.
  split; [discriminate|]. apply buffer_argument_raises. discriminate.
Defined.




(** C10.  With no rows and at least one matched column, the [finally]
    loop reads [paramnm], which the per-row loop never bound: the call
    raises (UnboundLocalError when the shape is a valid 2-tuple) instead
    of returning the zero grid. *)
Theorem zero_rows_raise shape model t ov :
  rows t = [] -> params_to_set model t <> [] ->
  (exists e, fst (make_model_sources_image shape model t ov) = Err e)
  /\ forall ny nx, (0 <= ny)%Z -> (0 <= nx)%Z ->
     fst (make_model_sources_image (ShapeTuple [ny; nx]) model t ov) = Err (UnboundLocal "paramnm").
Proof.
  intros Hrows Hps.
  assert (Hinit := init_params_nonempty model _ Hps).
  assert (K : forall sh, (exists e, np_zeros_shape sh = Err e) \/
                         (exists s e, np_zeros_shape sh = Ok s /\ unpack_yx s = Err e) \/
                         (exists s ny nx, np_zeros_shape sh = Ok s /\ unpack_yx s = Ok (ny, nx) /\
            fst (make_model_sources_image sh model t ov) = Err (UnboundLocal "paramnm"))).
  { intros sh. unfold make_model_sources_image.
    destruct (np_zeros_shape sh) as [s|e] eqn:Z0; [|left; eauto].
    destruct (unpack_yx s) as [[ny nx]|e] eqn:U; [|right; left; eauto].
    right; right. exists s, ny, nx. split; [reflexivity|]. split; [exact U|].
    rewrite Hrows. simpl row_loop. cbv iota beta.
    destruct (init_params model (params_to_set model t)) as [|[k v] items]; [congruence|].
    reflexivity. }
  split.
  - destruct (K shape) as [(e & He)|[(s & e & Hs & He)|(s & ny & nx & _ & _ & E)]].
    + exists e. unfold make_model_sources_image. rewrite He. reflexivity.
    + exists e. unfold make_model_sources_image. rewrite Hs, He. reflexivity.
    + eauto.
  - intros ny nx Hy Hx.
    destruct (K (ShapeTuple [ny; nx])) as [(e & He)|[(s & e & Hs & He)|(s & ny' & nx' & _ & _ & E)]].
    + exfalso. simpl in He. destruct (ny <? 0)%Z eqn:E1; [apply Z.ltb_lt in E1; lia|].
      destruct (nx <? 0)%Z eqn:E2; [apply Z.ltb_lt in E2; lia|]. discriminate.
    + exfalso. simpl in Hs. destruct (ny <? 0)%Z eqn:E1; [apply Z.ltb_lt in E1; lia|].
      destruct (nx <? 0)%Z eqn:E2; [apply Z.ltb_lt in E2; lia|].
      inversion Hs; subst. discriminate.
    + exact E.
Qed.

Lemma zero_rows_raise_witness :
  (rows {| colnames := ["amplitude"]; rows := [] |} = []
   /\ params_to_set ex_model {| colnames := ["amplitude"]; rows := [] |} <> [])
  /\ fst (make_model_sources_image (ShapeTuple [3; 4]%Z) ex_model
            {| colnames := ["amplitude"]; rows := [] |} 1%float) = Err (UnboundLocal "paramnm").
Proof.
  assert (H1 : rows {| colnames := ["amplitude"]; rows := [] |} = []) by reflexivity.
  assert (H2 : params_to_set ex_model {| colnames := ["amplitude"]; rows := [] |} <> [])
    by discriminate.
  split; [split; assumption|].
  apply (proj2 (zero_rows_raise (ShapeTuple [3; 4]%Z) ex_model _ 1%float H1 H2)); lia.
Defined.

Lemma params_add_column model t c vals :
  mem c (param_names model) = false ->
  params_to_set model (add_column t c vals) = params_to_set model t.
Proof.
  intros Hc. unfold params_to_set, add_column. simpl.
  rewrite filter_app. simpl. rewrite Hc. apply app_nil_r.
Qed.

Lemma set_row_ext ps : forall m r1 r2 b,
  (forall p, In p ps -> r1 p = r2 p) -> set_row m r1 ps b = set_row m r2 ps b.
Proof.
  induction ps as [|p ps IH]; intros m r1 r2 b H; [reflexivity|]. simpl.
  rewrite (H p (or_introl eq_refl)). apply IH. intros p' Hp'. apply H. right. exact Hp'.
Qed.

Lemma row_loop_ext ps rs1 rs2 :
  Forall2 (fun r1 r2 => forall p, In p ps -> r1 p = r2 p) rs1 rs2 ->
  forall m image b ny nx ov,
  row_loop m image b ps rs1 ny nx ov = row_loop m image b ps rs2 ny nx ov.
Proof.
  induction 1 as [|r1 r2 rs1 rs2 Hr _ IH]; intros m image b ny nx ov; [reflexivity|].
  simpl. rewrite (set_row_ext ps m r1 r2 b Hr).
  destruct (set_row m r2 ps b) as [m1 pn1].
  destruct (eval_model m1 ny nx ov); [apply IH | reflexivity].
Qed.

Lemma add_column_rows ps c rs vals :
  (forall p, In p ps -> p <> c) -> List.length vals = List.length rs ->
  Forall2 (fun r1 r2 => forall p, In p ps -> r1 p = r2 p)
          (zip_with (fun r v => upd r c v) rs vals) rs.
Proof.
  intros Hc. revert vals. induction rs as [|r rs IH]; intros vals Hlen.
  - destruct vals; constructor.
  - destruct vals as [|v vals]; [discriminate|]. simpl. constructor.
    + intros p Hp. unfold upd. apply Hc, String.eqb_neq in Hp. rewrite Hp. reflexivity.
    + apply IH. simpl in Hlen. congruence.
Qed.

(** C7.  Adding a column whose name is none of the model's parameter
    names (one value per row) changes neither the result nor the model's
    final state. *)
Theorem unmatched_column_ignored shape model t c vals ov :
  mem c (param_names model) = false -> List.length vals = List.length (rows t) ->
  make_model_sources_image shape model (add_column t c vals) ov
  = make_model_sources_image shape model t ov.
Proof.
  intros Hc Hlen. unfold make_model_sources_image.
  rewrite (params_add_column model t c vals Hc).
  destruct (np_zeros_shape shape) as [s|e]; [|reflexivity].
  destruct (unpack_yx s) as [[ny nx]|e]; [|reflexivity].
  rewrite (row_loop_ext (params_to_set model t) (rows (add_column t c vals)) (rows t)).
  - reflexivity.
  - apply add_column_rows; [|exact Hlen].
    intros p Hp E. subst. unfold params_to_set in Hp. apply filter_In in Hp.
    destruct Hp as [_ Hp]. congruence.
Qed.

Lemma unmatched_column_ignored_witness :
  (mem "flux" (param_names ex_model) = false /\ List.length [7%float] = List.length (rows ex_table))
  /\ make_model_sources_image (ShapeTuple [2; 2]%Z) ex_model (add_column ex_table "flux" [7%float]) 1%float
     = make_model_sources_image (ShapeTuple [2; 2]%Z) ex_model ex_table 1%float.
Proof.
  assert (H1 : mem "flux" (param_names ex_model) = false) by reflexivity.
  assert (H2 : List.length [7%float] = List.length (rows ex_table)) by reflexivity.
  split; [split; assumption|]. exact (unmatched_column_ignored _ _ _ _ _ _ H1 H2).
Defined.

Lemma flux_to_amplitude_ok t :
  mem "flux" (colnames t) = true -> mem "x_stddev" (colnames t) = true ->
  mem "y_stddev" (colnames t) = true ->
  flux_to_amplitude t =
  Ok (zip_with PrimFloat.div (map (fun r => r "flux") (rows t))
        (zip_with PrimFloat.mul
           (map (fun a => PrimFloat.mul (2 * np_pi)%float a) (map (fun r => r "x_stddev") (rows t)))
           (map (fun r => r "y_stddev") (rows t)))).
Proof. intros Hf Hx Hy. unfold flux_to_amplitude, get_column. rewrite Hf, Hx, Hy. reflexivity. Qed.

Lemma amplitude_rows (rs : list Row) :
  zip_with (fun r v => upd r "amplitude" v) rs
    (zip_with PrimFloat.div (map (fun r => r "flux") rs)
       (zip_with PrimFloat.mul
          (map (fun a => PrimFloat.mul (2 * np_pi)%float a) (map (fun r => r "x_stddev") rs))
          (map (fun r => r "y_stddev") rs)))
  = map (fun src => upd src "amplitude"
           (src "flux" / (2 * np_pi * src "x_stddev" * src "y_stddev"))%float) rs.
Proof. induction rs as [|r rs IH]; cbn [zip_with map]; [reflexivity | f_equal; exact IH]. Qed.

(** C6.  With a flux column (and x_stddev, y_stddev columns), the table
    handed to the renderer is a new object whose amplitude column holds
    flux / (2 pi x_stddev y_stddev) row by row, replacing any amplitude
    column, and which has no flux column; the caller's table object is
    unchanged. *)
Theorem flux_column_converted g_call g_disc st r shape ov :
  r < next_ref st ->
  mem "flux" (colnames (heap st r)) = true ->
  mem "x_stddev" (colnames (heap st r)) = true ->
  mem "y_stddev" (colnames (heap st r)) = true ->
  exists t' st',
    make_gaussian_sources_image g_call g_disc st shape r ov
      = (fst (make_model_sources_image shape (gaussian2d g_call g_disc) t' ov), st')
    /\ heap st' r = heap st r
    /\ In "amplitude" (colnames t') /\ ~ In "flux" (colnames t')
    /\ rows t' = map (fun src => upd src "amplitude"
                        (src "flux" / (2 * np_pi * src "x_stddev" * src "y_stddev"))%float)
                     (rows (heap st r)).
Proof.
  intros Hr Hf Hx Hy. unfold make_gaussian_sources_image. rewrite Hf.
  unfold table_copy. cbn [heap next_ref]. rewrite Nat.eqb_refl.
  rewrite (flux_to_amplitude_ok _ Hf Hx Hy).
  set (t := heap st r) in *.
  set (amp := zip_with PrimFloat.div _ _).
  set (st1 := {| heap := _; next_ref := _ |}).
  set (st2 := store_put st1 (next_ref st) (set_column t "amplitude" amp)).
  set (st3 := store_put st2 (next_ref st) (del_column (heap st2 (next_ref st)) "flux")).
  exists (heap st3 (next_ref st)), st3. split; [reflexivity|].
  assert (Hne : Nat.eqb r (next_ref st) = false) by (apply Nat.eqb_neq; lia).
  assert (T3 : heap st3 (next_ref st) = del_column (set_column t "amplitude" amp) "flux").
  { unfold st3, st2, store_put. cbn [heap]. rewrite Nat.eqb_refl. reflexivity. }
  rewrite T3. split.
  { unfold st3, st2, st1, store_put. cbn [heap]. rewrite Hne. reflexivity. }
  split; [|split].
  - unfold del_column, set_column. cbn [colnames]. apply in_in_remove; [discriminate|].
    destruct (mem "amplitude" (colnames t)) eqn:Ha.
    + apply mem_In, Ha.
    + apply in_or_app. right. left. reflexivity.
  - unfold del_column. cbn [colnames]. apply remove_In.
  - unfold del_column, set_column. cbn [rows].
    destruct (colnames t) as [|c cs] eqn:Hc; [discriminate|].
    unfold amp. apply amplitude_rows.
Qed.

(** A table with both a flux and an amplitude column, as the only object
    of the store. *)
Definition ex_gauss_table : Table :=
  {| colnames := ["amplitude"; "flux"; "x_mean"; "y_mean"; "x_stddev"; "y_stddev"];
     rows := [fun c => if String.eqb c "flux" then 100%float
                       else if String.eqb c "x_stddev" then 2%float
                       else if String.eqb c "y_stddev" then 4%float
                       else 9%float] |}.

Definition ex_store : Store := {| heap := fun _ => ex_gauss_table; next_ref := 1 |}.

Lemma flux_column_converted_witness :
  (0 < next_ref ex_store /\ mem "flux" (colnames (heap ex_store 0)) = true
   /\ mem "x_stddev" (colnames (heap ex_store 0)) = true
   /\ mem "y_stddev" (colnames (heap ex_store 0)) = true)
  /\ exists t' st',
    make_gaussian_sources_image (fun _ _ _ => None) (fun _ _ _ _ => None) ex_store
      (ShapeTuple [2; 2]%Z) 0 1%float
      = (fst (make_model_sources_image (ShapeTuple [2; 2]%Z)
               (gaussian2d (fun _ _ _ => None) (fun _ _ _ _ => None)) t' 1%float), st')
    /\ heap st' 0 = heap ex_store 0
    /\ In "amplitude" (colnames t') /\ ~ In "flux" (colnames t')
    /\ rows t' = map (fun src => upd src "amplitude"
                        (src "flux" / (2 * np_pi * src "x_stddev" * src "y_stddev"))%float)
                     (rows (heap ex_store 0)).
Proof.
  assert (H1 : 0 < next_ref ex_store) by (simpl; lia).
  assert (H2 : mem "flux" (colnames (heap ex_store 0)) = true) by reflexivity.
  assert (H3 : mem "x_stddev" (colnames (heap ex_store 0)) = true) by reflexivity.
  assert (H4 : mem "y_stddev" (colnames (heap ex_store 0)) = true) by reflexivity.
  split; [repeat split; assumption|].
  exact (flux_column_converted _ _ ex_store 0 (ShapeTuple [2; 2]%Z) 1%float H1 H2 H3 H4).
Defined.

Section RandomProofs.
Variable RNG : Type.
Variable draw1 : RNG -> float -> option (float * RNG).

Lemma poisson_row_spec row : forall g,
  (forall e, poisson_row RNG draw1 row g = Err e -> e = RandomError)
  /\ (forall ks g', poisson_row RNG draw1 row g = Ok (ks, g') -> List.length ks = List.length row).
Proof.
  induction row as [|lam row IH]; intros g; simpl.
  - split; [discriminate|]. intros ks g' H. inversion H. reflexivity.
  - destruct (draw1 g lam) as [[k g1]|]; [|split; [congruence | discriminate]].
    destruct (IH g1) as [IHe IHo].
    destruct (poisson_row RNG draw1 row g1) as [[ks g2]|e'].
    + split; [discriminate|]. intros ks' g' H. inversion H; subst. simpl. f_equal. eapply IHo. reflexivity.
    + split; [|discriminate]. intros e H. inversion H; subst. apply IHe. reflexivity.
Qed.

Lemma np_poisson_spec data : forall g,
  (forall e, np_poisson RNG draw1 data g = Err e -> e = RandomError)
  /\ (forall out g', np_poisson RNG draw1 data g = Ok (out, g') ->
        Forall2 (fun row o => List.length o = List.length row) data out).
Proof.
  induction data as [|row data IH]; intros g; simpl.
  - split; [discriminate|]. intros out g' H. inversion H. constructor.
  - destruct (poisson_row_spec row g) as [Re Ro].
    destruct (poisson_row RNG draw1 row g) as [[ks g1]|e']; [|split; [|discriminate]].
    + destruct (IH g1) as [IHe IHo].
      destruct (np_poisson RNG draw1 data g1) as [[kss g2]|e'].
      * split; [discriminate|]. intros out g' H. inversion H; subst.
        constructor; [eapply Ro; reflexivity | eapply IHo; reflexivity].
      * split; [|discriminate]. intros e H. inversion H; subst. apply IHe. reflexivity.
    + intros e H. inversion H; subst. apply Re. reflexivity.
Qed.

Lemma any_negative_spec data :
  any_negative data = true <-> exists row x, In row data /\ In x row /\ PrimFloat.ltb x 0%float = true.
Proof.
  unfold any_negative. rewrite existsb_exists. split.
  - intros [row [Hrow Hx]]. apply existsb_exists in Hx. destruct Hx as [x [Hx Hlt]]. eauto.
  - intros (row & x & Hrow & Hx & Hlt). exists row. split; [exact Hrow|].
    apply existsb_exists. eauto.
Qed.

End RandomProofs.

(** C8.  apply_poisson_noise raises its own error exactly when some
    element is negative; otherwise it returns numpy's Poisson draw over
    the data unchanged, one sample per element (the output has the data's
    shape); an all-zero input is accepted. *)
Theorem apply_poisson_negative_iff RNG draw1 data g :
  (apply_poisson_noise RNG draw1 data g = Err NegativeCounts
   <-> exists row x, In row data /\ In x row /\ PrimFloat.ltb x 0%float = true)
  /\ (any_negative data = false ->
      apply_poisson_noise RNG draw1 data g
      = match np_poisson RNG draw1 data g with Err e => Err e | Ok (out, _) => Ok out end)
  /\ (forall out, apply_poisson_noise RNG draw1 data g = Ok out ->
        Forall2 (fun row o => List.length o = List.length row) data out)
  /\ (Forall (Forall (fun x => x = 0%float)) data ->
      apply_poisson_noise RNG draw1 data g <> Err NegativeCounts).
Proof.
  destruct (np_poisson_spec RNG draw1 data g) as [Pe Po].
  assert (Z0 : Forall (Forall (fun x => x = 0%float)) data -> any_negative data = false).
  { intros H. destruct (any_negative data) eqn:E; [|reflexivity].
    apply any_negative_spec in E. destruct E as (row & x & Hrow & Hx & Hlt).
    rewrite Forall_forall in H. specialize (H row Hrow). rewrite Forall_forall in H.
    rewrite (H x Hx) in Hlt. discriminate Hlt. }
  unfold apply_poisson_noise. split; [|split; [|split]].
  - rewrite <- any_negative_spec. destruct (any_negative data).
    + split; reflexivity.
    + split; [|discriminate]. destruct (np_poisson RNG draw1 data g) as [[out g']|e] eqn:E.
      * discriminate.
      * intros H. inversion H; subst. specialize (Pe _ eq_refl). discriminate Pe.
  - intros H. rewrite H. reflexivity.
  - intros out. destruct (any_negative data); [discriminate|].
    destruct (np_poisson RNG draw1 data g) as [[out' g']|e]; [|discriminate].
    intros H. inversion H; subst. eapply Po. reflexivity.
  - intros H. rewrite (Z0 H). destruct (np_poisson RNG draw1 data g) as [[out g']|e] eqn:E.
    + discriminate.
    + intros H'. inversion H'; subst. specialize (Pe _ eq_refl). discriminate Pe.
Qed.

(** A generator that returns its expectation: enough to exercise the
    theorem on concrete data. *)
Definition ex_draw1 (g : unit) (lam : float) : option (float * unit) := Some (lam, g).

Lemma apply_poisson_negative_iff_witness :
  apply_poisson_noise unit ex_draw1 [[0; 0]; [0; 0]]%float tt <> Err NegativeCounts
  /\ apply_poisson_noise unit ex_draw1 [[1; -2]]%float tt = Err NegativeCounts.
Proof.
  split.
  - apply (apply_poisson_negative_iff unit ex_draw1 [[0; 0]; [0; 0]]%float tt).
    repeat constructor.
  - apply (apply_poisson_negative_iff unit ex_draw1 [[1; -2]]%float tt).
    exists [1; -2]%float, (-2)%float. split; [left; reflexivity|]. split; [right; left; reflexivity|].
    reflexivity.
Defined.




(** numpy's sampling stood in by the lower bound, for concrete runs. *)
Definition ex_gen (g : unit) (low _ : float) (k : nat) : list float * unit := (repeat low k, g).


(** A seeded generator for the concrete runs, [random_state=12345]. *)
Definition ex_seeded (_ : Z) : unit := tt.



(** ** Further properties of make_model_sources_image *)

Lemma set_row_fns ps : forall m source b,
  call (fst (set_row m source ps b)) = call m /\ discretize (fst (set_row m source ps b)) = discretize m.
Proof.
  induction ps as [|p ps IH]; intros; simpl; [split; reflexivity|].
  destruct (IH (setattr m p (source p)) source (Some p)) as [C D]. rewrite C, D. split; reflexivity.
Qed.

Lemma model_ext m1 m2 :
  param_names m1 = param_names m2 -> (forall q, values m1 q = values m2 q) ->
  call m1 = call m2 -> discretize m1 = discretize m2 -> m1 = m2.
Proof.
  destruct m1, m2; simpl. intros -> Hv -> ->. f_equal. apply functional_extensionality, Hv.
Qed.

Lemma zip_with_length_eq {A B C} (f : A -> B -> C) l1 l2 :
  List.length l1 = List.length l2 -> List.length (zip_with f l1 l2) = List.length l1.
Proof.
  revert l2. induction l1 as [|a l1 IH]; intros [|b l2] H; simpl in *; try lia.
  f_equal. apply IH. lia.
Qed.

Lemma grid_add_shape_nat a : forall b k n,
  List.length a = k -> List.length b = k ->
  Forall (fun row => List.length row = n) a -> Forall (fun row => List.length row = n) b ->
  List.length (grid_add a b) = k /\ Forall (fun row => List.length row = n) (grid_add a b).
Proof.
  unfold grid_add. induction a as [|r a IH]; intros [|r' b] k n Ha Hb Fa Fb; simpl in *; subst;
    try discriminate; [split; [reflexivity | constructor]|].
  inversion Fa; inversion Fb; subst.
  destruct (IH b (List.length a) (List.length r) eq_refl ltac:(lia) ltac:(assumption) ltac:(assumption))
    as [L F].
  split; [simpl; f_equal; exact L|]. constructor; [|exact F].
  apply zip_with_length_eq. congruence.
Qed.

Lemma grid_add_shape a b ny nx : has_shape a ny nx -> has_shape b ny nx -> has_shape (grid_add a b) ny nx.
Proof. intros [La Fa] [Lb Fb]. apply grid_add_shape_nat; assumption. Qed.

Lemma zeros_shape ny nx : has_shape (zeros ny nx) ny nx.
Proof.
  unfold zeros, has_shape. rewrite repeat_length. split; [reflexivity|].
  apply Forall_forall. intros row Hrow. apply repeat_spec in Hrow. subst. apply repeat_length.
Qed.

Lemma row_loop_shape model ps ny nx ov :
  (forall p g, call model p ny nx = Some g -> has_shape g ny nx) ->
  (forall p f g, discretize model p f ny nx = Some g -> has_shape g ny nx) ->
  forall rs m image b m' pn g,
  call m = call model -> discretize m = discretize model -> has_shape image ny nx ->
  row_loop m image b ps rs ny nx ov = (m', pn, Ok g) -> has_shape g ny nx.
Proof.
  intros Hc Hd. induction rs as [|source rs IH]; intros m image b m' pn g Ec Ed Hi H.
  - simpl in H. inversion H; subst. exact Hi.
  - simpl in H. destruct (set_row m source ps b) as [m1 pn1] eqn:SR.
    destruct (set_row_fns ps m source b) as [C1 D1]. rewrite SR in C1, D1. simpl in C1, D1.
    unfold eval_model in H.
    destruct (PrimFloat.eqb ov 1%float).
    + destruct (call m1 (values m1) ny nx) as [g1|] eqn:E; simpl in H; [|discriminate].
      rewrite C1, Ec in E. eapply IH; [| | | exact H]; try congruence.
      apply grid_add_shape; [exact Hi | eapply Hc; exact E].
    + destruct (discretize m1 (values m1) ov ny nx) as [g1|] eqn:E; simpl in H; [|discriminate].
      rewrite D1, Ed in E. eapply IH; [| | | exact H]; try congruence.
      apply grid_add_shape; [exact Hi | eapply Hd; exact E].
Qed.

(** X1: the rendered image has the requested shape whenever the model's
    evaluations have it. *)
Theorem render_shape ny nx model t ov img m' :
  (forall p g, call model p ny nx = Some g -> has_shape g ny nx) ->
  (forall p f g, discretize model p f ny nx = Some g -> has_shape g ny nx) ->
  make_model_sources_image (ShapeTuple [ny; nx]) model t ov = (Ok img, m') ->
  has_shape img ny nx.
Proof.
  intros Hc Hd H. unfold make_model_sources_image in H. simpl in H.
  destruct ((ny <? 0)%Z || ((nx <? 0)%Z || false)); [discriminate|]. simpl in H.
  destruct (row_loop model (zeros ny nx) None (params_to_set model t) (rows t) ny nx ov)
    as [[m1 pn] r] eqn:RL.
  destruct (restore m1 pn (init_params model (params_to_set model t))) as [m2 [[]|e]];
    inversion H; subst.
  eapply (row_loop_shape model _ ny nx ov Hc Hd); [reflexivity | reflexivity | apply zeros_shape | exact RL].
Qed.

(** A model whose evaluation returns zero grids of the requested shape. *)
Lemma ex_model_shapes ny nx :
  (forall p g, call ex_model p ny nx = Some g -> has_shape g ny nx)
  /\ (forall p f g, discretize ex_model p f ny nx = Some g -> has_shape g ny nx).
Proof.
  split; intros; simpl in *; match goal with H : Some _ = Some _ |- _ => inversion H end;
    apply zeros_shape.
Qed.

Lemma render_shape_witness :
  ((forall p g, call ex_model p 3 4 = Some g -> has_shape g 3 4)
   /\ (forall p f g, discretize ex_model p f 3 4 = Some g -> has_shape g 3 4)
   /\ make_model_sources_image (ShapeTuple [3; 4]%Z) ex_model ex_table 1%float
      = (Ok (zeros 3 4), snd (make_model_sources_image (ShapeTuple [3; 4]%Z) ex_model ex_table 1%float)))
  /\ has_shape (zeros 3 4) 3 4.
Proof.
  destruct (ex_model_shapes 3 4) as [Hc Hd].
  assert (H : make_model_sources_image (ShapeTuple [3; 4]%Z) ex_model ex_table 1%float
      = (Ok (zeros 3 4), snd (make_model_sources_image (ShapeTuple [3; 4]%Z) ex_model ex_table 1%float)))
    by reflexivity.
  split; [exact (conj Hc (conj Hd H))|]. exact (render_shape 3 4 ex_model ex_table 1%float _ _ Hc Hd H).
Defined.

Lemma make_eq shape model t ov :
  make_model_sources_image shape model t ov =
  match np_zeros_shape shape with
  | Err e => (Err e, model)
  | Ok s =>
      match unpack_yx s with
      | Err e => (Err e, model)
      | Ok (ny, nx) =>
          let ps := params_to_set model t in
          let lr := row_loop model (zeros ny nx) None ps (rows t) ny nx ov in
          let rs := restore (fst (fst lr)) (snd (fst lr)) (init_params model ps) in
          (match snd rs with Err e => Err e | Ok _ => snd lr end, fst rs)
      end
  end.
Proof.
  unfold make_model_sources_image.
  destruct (np_zeros_shape shape) as [s|e]; [|reflexivity].
  destruct (unpack_yx s) as [[ny nx]|e]; [|reflexivity].
  destruct (row_loop model (zeros ny nx) None (params_to_set model t) (rows t) ny nx ov) as [[m1 pn] r].
  simpl. destruct (restore m1 pn (init_params model (params_to_set model t))) as [m2 [u|e]]; reflexivity.
Qed.

Lemma shape2_ok ny nx : (0 <= ny)%Z -> (0 <= nx)%Z -> np_zeros_shape (ShapeTuple [ny; nx]) = Ok [ny; nx].
Proof.
  intros Hy Hx. unfold np_zeros_shape. simpl.
  rewrite (proj2 (Z.ltb_ge ny 0) Hy), (proj2 (Z.ltb_ge nx 0) Hx). reflexivity.
Qed.

Lemma restore_fin items : forall m pn,
  snd (restore m pn items) =
  match items, pn with
  | [], _ => Ok tt
  | _ :: _, None => Err (UnboundLocal "paramnm")
  | _ :: _, Some _ => Ok tt
  end.
Proof.
  intros m pn. destruct items as [|[k v] items]; [reflexivity|].
  destruct pn as [p|]; [apply restore_some | reflexivity].
Qed.

Lemma restore_values_other items : forall m pn q,
  (forall p, pn = Some p -> p <> q) -> values (fst (restore m pn items)) q = values m q.
Proof.
  induction items as [|[k v] items IH]; intros m pn q H; simpl; [reflexivity|].
  destruct pn as [p|]; simpl; [|reflexivity].
  rewrite IH by exact H. simpl. unfold upd.
  destruct (String.eqb q p) eqn:E; [|reflexivity].
  apply String.eqb_eq in E. subst. exfalso. exact (H _ eq_refl eq_refl).
Qed.

Lemma set_row_agree m1 m2 ps source b :
  param_names m1 = param_names m2 -> call m1 = call m2 -> discretize m1 = discretize m2 ->
  (forall q, mem q ps = false -> values m1 q = values m2 q) ->
  set_row m1 source ps b = set_row m2 source ps b.
Proof.
  intros N C D V.
  rewrite (surjective_pairing (set_row m1 source ps b)), (surjective_pairing (set_row m2 source ps b)).
  rewrite !set_row_paramnm. f_equal. apply model_ext.
  - rewrite !set_row_names. exact N.
  - intros q. rewrite !set_row_values. destruct (mem q ps) eqn:E; [reflexivity | apply V, E].
  - destruct (set_row_fns ps m1 source b) as [C1 _], (set_row_fns ps m2 source b) as [C2 _]. congruence.
  - destruct (set_row_fns ps m1 source b) as [_ D1], (set_row_fns ps m2 source b) as [_ D2]. congruence.
Qed.

(** X2: the image does not depend on the values the matched parameters held
    before the call: two models that differ only there render the same
    image (or raise the same error). *)
Theorem image_ignores_initial_matched_values shape m1 m2 t ov :
  param_names m1 = param_names m2 -> call m1 = call m2 -> discretize m1 = discretize m2 ->
  (forall q, mem q (params_to_set m1 t) = false -> values m1 q = values m2 q) ->
  fst (make_model_sources_image shape m1 t ov) = fst (make_model_sources_image shape m2 t ov).
Proof.
  intros N C D V.
  assert (P : params_to_set m1 t = params_to_set m2 t) by (unfold params_to_set; rewrite N; reflexivity).
  rewrite !make_eq. rewrite <- P.
  destruct (np_zeros_shape shape) as [s|e]; [|reflexivity].
  destruct (unpack_yx s) as [[ny nx]|e]; [|reflexivity].
  cbv zeta. simpl fst. rewrite !restore_fin.
  assert (LR : snd (fst (row_loop m1 (zeros ny nx) None (params_to_set m1 t) (rows t) ny nx ov))
               = snd (fst (row_loop m2 (zeros ny nx) None (params_to_set m1 t) (rows t) ny nx ov))
            /\ snd (row_loop m1 (zeros ny nx) None (params_to_set m1 t) (rows t) ny nx ov)
               = snd (row_loop m2 (zeros ny nx) None (params_to_set m1 t) (rows t) ny nx ov)).
  { destruct (rows t) as [|src rs]; [split; reflexivity|].
    simpl row_loop. rewrite (set_row_agree m1 m2 _ src None N C D V). split; reflexivity. }
  destruct LR as [L1 L2]. rewrite L1, L2.
  destruct (params_to_set m1 t) as [|p ps] eqn:E; [reflexivity|].
  destruct (init_params m1 (p :: ps)) eqn:I1;
    [exfalso; exact (init_params_nonempty m1 (p :: ps) ltac:(discriminate) I1)|].
  destruct (init_params m2 (p :: ps)) eqn:I2;
    [exfalso; exact (init_params_nonempty m2 (p :: ps) ltac:(discriminate) I2)|].
  reflexivity.
Qed.

Lemma image_ignores_initial_matched_values_witness :
  (param_names ex_model = param_names (setattr ex_model "amplitude" 7%float)
   /\ call ex_model = call (setattr ex_model "amplitude" 7%float)
   /\ discretize ex_model = discretize (setattr ex_model "amplitude" 7%float)
   /\ (forall q, mem q (params_to_set ex_model ex_table) = false ->
        values ex_model q = values (setattr ex_model "amplitude" 7%float) q))
  /\ fst (make_model_sources_image (ShapeTuple [2; 2]%Z) ex_model ex_table 1%float)
     = fst (make_model_sources_image (ShapeTuple [2; 2]%Z) (setattr ex_model "amplitude" 7%float) ex_table 1%float).
Proof.
  assert (V : forall q, mem q (params_to_set ex_model ex_table) = false ->
        values ex_model q = values (setattr ex_model "amplitude" 7%float) q).
  { intros q H. simpl. unfold upd.
    destruct (String.eqb q "amplitude") eqn:E; [|reflexivity].
    apply String.eqb_eq in E. subst. discriminate H. }
  split; [exact (conj eq_refl (conj eq_refl (conj eq_refl V)))|].
  exact (image_ignores_initial_matched_values (ShapeTuple [2; 2]%Z) ex_model
           (setattr ex_model "amplitude" 7%float) ex_table 1%float eq_refl eq_refl eq_refl V).
Defined.

Lemma frame_values shape model t ov q :
  mem q (params_to_set model t) = false ->
  values (snd (make_model_sources_image shape model t ov)) q = values model q.
Proof.
  intros Hq. rewrite make_eq.
  destruct (np_zeros_shape shape) as [s|e]; [|reflexivity].
  destruct (unpack_yx s) as [[ny nx]|e]; [|reflexivity]. cbv zeta. simpl snd.
  destruct (row_loop model (zeros ny nx) None (params_to_set model t) (rows t) ny nx ov)
    as [[m1 pn] r] eqn:RL. simpl fst. simpl snd.
  destruct (row_loop_spec _ _ _ _ _ _ _ _ _ _ _ RL) as (_ & Hv & Hnil & Hsome & _).
  destruct (params_to_set model t) as [|p0 ps]; [apply Hv, Hq|].
  rewrite restore_values_other; [apply Hv, Hq|].
  intros p Hp Epq. subst q.
  destruct (rows t) as [|src rs]; [destruct (Hnil eq_refl) as (_ & E & _); congruence|].
  rewrite (Hsome ltac:(discriminate) ltac:(discriminate)) in Hp. inversion Hp; subst p.
  assert (Hin : mem (last (p0 :: ps) "") (p0 :: ps) = true)
    by (apply mem_In, last_In; discriminate).
  congruence.
Qed.

(** X3: the call never changes a parameter that no column of the table
    names, whatever the outcome (success, evaluation error, or the error
    raised by the [finally] clause). *)
Theorem unmatched_parameters_untouched shape model t ov q :
  mem q (params_to_set model t) = false ->
  values (snd (make_model_sources_image shape model t ov)) q = values model q.
Proof. apply frame_values. Qed.

Lemma unmatched_parameters_untouched_witness :
  mem "y_mean" (params_to_set ex_model ex_table) = false
  /\ values (snd (make_model_sources_image (ShapeTuple [2; 2]%Z) ex_model ex_table 1%float)) "y_mean"
     = values ex_model "y_mean".
Proof.
  split; [reflexivity|].
  exact (unmatched_parameters_untouched (ShapeTuple [2; 2]%Z) ex_model ex_table 1%float "y_mean" eq_refl).
Defined.

(** X4: with exactly one matched column p (and distinct column names) a
    successful call leaves p at the last row's value: the restoration
    copies the saved Parameter, which is p itself, so nothing is set back;
    every other parameter keeps its value. *)
Theorem single_matched_column_not_restored shape model t ov g m' p :
  NoDup (colnames t) -> rows t <> [] -> params_to_set model t = [p] ->
  make_model_sources_image shape model t ov = (Ok g, m') ->
  forall q, values m' q = if String.eqb q p then last_row t p else values model q.
Proof.
  intros Hnd Hr P H q.
  rewrite (final_values shape model t ov g m' Hnd Hr ltac:(rewrite P; discriminate) H q).
  rewrite P. simpl. destruct (String.eqb q p) eqn:E; reflexivity.
Qed.

Lemma single_matched_column_not_restored_witness :
  (NoDup (colnames ex_table1) /\ rows ex_table1 <> [] /\ params_to_set ex_model ex_table1 = ["amplitude"]
   /\ make_model_sources_image (ShapeTuple [2; 2]%Z) ex_model ex_table1 1%float
      = (Ok (zeros 2 2), snd (make_model_sources_image (ShapeTuple [2; 2]%Z) ex_model ex_table1 1%float)))
  /\ values (snd (make_model_sources_image (ShapeTuple [2; 2]%Z) ex_model ex_table1 1%float)) "amplitude"
     = last_row ex_table1 "amplitude".
Proof.
  assert (Hnd : NoDup (colnames ex_table1)).
  { simpl. constructor; [simpl; intros [H|H]; [discriminate|contradiction]|].
    constructor; [simpl; tauto | constructor]. }
  assert (Hr : rows ex_table1 <> []) by discriminate.
  assert (P : params_to_set ex_model ex_table1 = ["amplitude"]) by reflexivity.
  assert (H : make_model_sources_image (ShapeTuple [2; 2]%Z) ex_model ex_table1 1%float
      = (Ok (zeros 2 2), snd (make_model_sources_image (ShapeTuple [2; 2]%Z) ex_model ex_table1 1%float)))
    by reflexivity.
  split; [exact (conj Hnd (conj Hr (conj P H)))|].
  exact (single_matched_column_not_restored _ _ _ _ _ _ _ Hnd Hr P H "amplitude").
Defined.




(** X6: an empty table none of whose columns the model knows gives an image
    of zeros and leaves the model as it was. *)
Theorem no_rows_no_match_gives_zeros ny nx model t ov :
  (0 <= ny)%Z -> (0 <= nx)%Z -> rows t = [] -> params_to_set model t = [] ->
  make_model_sources_image (ShapeTuple [ny; nx]) model t ov = (Ok (zeros ny nx), model).
Proof.
  intros Hy Hx Hr Hp. rewrite make_eq, shape2_ok by assumption. simpl unpack_yx. cbv zeta.
  rewrite Hr, Hp. reflexivity.
Qed.

Lemma no_rows_no_match_gives_zeros_witness :
  ((0 <= 2)%Z /\ (0 <= 3)%Z /\ rows {| colnames := ["flux_err"]; rows := [] |} = []
   /\ params_to_set ex_model {| colnames := ["flux_err"]; rows := [] |} = [])
  /\ make_model_sources_image (ShapeTuple [2; 3]%Z) ex_model {| colnames := ["flux_err"]; rows := [] |} 1%float
     = (Ok (zeros 2 3), ex_model).
Proof.
  split; [split; [lia | split; [lia | split; reflexivity]]|].
  apply no_rows_no_match_gives_zeros; [lia | lia | reflexivity | reflexivity].
Defined.

(** ** Further properties of make_gaussian_sources_image *)

(** X7: the call never modifies a table that existed before it: the caller's
    table and every other object keep their contents, whichever branch is
    taken and whether or not it raises. *)
Theorem gaussian_tables_untouched g_call g_disc st image_shape r ov r' :
  r' < next_ref st ->
  heap (snd (make_gaussian_sources_image g_call g_disc st image_shape r ov)) r' = heap st r'.
Proof.
  intros Hr'. unfold make_gaussian_sources_image.
  assert (Hne : Nat.eqb r' (next_ref st) = false) by (apply Nat.eqb_neq; lia).
  destruct (mem "flux" (colnames (heap st r))).
  - simpl. destruct (flux_to_amplitude _) as [amp|e]; simpl; rewrite Hne; reflexivity.
  - destruct (negb (mem "amplitude" (colnames (heap st r)))); reflexivity.
Qed.

Lemma gaussian_tables_untouched_witness :
  0 < next_ref ex_store
  /\ heap (snd (make_gaussian_sources_image (fun _ _ _ => None) (fun _ _ _ _ => None) ex_store
                  (ShapeTuple [2; 2]%Z) 0 1%float)) 0 = heap ex_store 0.
Proof.
  split; [simpl; lia|].
  apply gaussian_tables_untouched. simpl. lia.
Defined.

(** X8: with a flux column, a missing x_stddev or y_stddev column raises a
    KeyError naming the first of them that is missing. *)
Theorem gaussian_flux_needs_stddevs g_call g_disc st image_shape r ov :
  mem "flux" (colnames (heap st r)) = true ->
  (mem "x_stddev" (colnames (heap st r)) = false ->
   fst (make_gaussian_sources_image g_call g_disc st image_shape r ov) = Err (KeyError "x_stddev"))
  /\ (mem "x_stddev" (colnames (heap st r)) = true -> mem "y_stddev" (colnames (heap st r)) = false ->
   fst (make_gaussian_sources_image g_call g_disc st image_shape r ov) = Err (KeyError "y_stddev")).
Proof.
  intros Hf. unfold make_gaussian_sources_image. rewrite Hf. simpl.
  rewrite Nat.eqb_refl. unfold flux_to_amplitude, get_column. rewrite Hf.
  split; intros Hx; [rewrite Hx; reflexivity|]. intros Hy. rewrite Hx, Hy. reflexivity.
Qed.

(** A table with a flux column and no stddev column. *)
Lemma gaussian_flux_needs_stddevs_witness :
  mem "flux" (colnames (heap {| heap := fun _ => {| colnames := ["flux"; "x_mean"]; rows := [] |};
                                 next_ref := 1 |} 0)) = true
  /\ fst (make_gaussian_sources_image (fun _ _ _ => None) (fun _ _ _ _ => None)
        {| heap := fun _ => {| colnames := ["flux"; "x_mean"]; rows := [] |}; next_ref := 1 |}
        (ShapeTuple [2; 2]%Z) 0 1%float) = Err (KeyError "x_stddev").
Proof.
  split; [reflexivity|].
  exact (proj1 (gaussian_flux_needs_stddevs (fun _ _ _ => None) (fun _ _ _ _ => None)
    {| heap := fun _ => {| colnames := ["flux"; "x_mean"]; rows := [] |}; next_ref := 1 |}
    (ShapeTuple [2; 2]%Z) 0 1%float eq_refl) eq_refl).
Defined.

Lemma params_to_set_nonempty m t p :
  mem p (colnames t) = true -> mem p (param_names m) = true -> params_to_set m t <> [].
Proof.
  intros H1 H2 E. apply mem_In in H1.
  assert (H : In p (params_to_set m t)) by (unfold params_to_set; apply filter_In; auto).
  rewrite E in H. contradiction.
Qed.

Lemma zero_rows_unbound_gen ny nx model t ov :
  (0 <= ny)%Z -> (0 <= nx)%Z -> rows t = [] -> params_to_set model t <> [] ->
  fst (make_model_sources_image (ShapeTuple [ny; nx]) model t ov) = Err (UnboundLocal "paramnm").
Proof.
  intros Hy Hx Hr Hp. rewrite make_eq, shape2_ok by assumption. simpl unpack_yx. cbv zeta.
  rewrite Hr. cbn [row_loop fst snd]. rewrite restore_fin.
  destruct (init_params model (params_to_set model t)) eqn:I;
    [exfalso; exact (init_params_nonempty _ _ Hp I) | reflexivity].
Qed.

Lemma mem_remove_other q c l : q <> c -> mem q (remove string_dec c l) = mem q l.
Proof.
  intros Hqc. unfold mem. induction l as [|a l IH]; [reflexivity|]. simpl.
  destruct (string_dec c a) as [->|Hca].
  - rewrite IH. rewrite (proj2 (String.eqb_neq q a) Hqc). reflexivity.
  - simpl. rewrite IH. reflexivity.
Qed.

Lemma mem_set_column t c vals : mem c (colnames (set_column t c vals)) = true.
Proof.
  unfold set_column. simpl. destruct (mem c (colnames t)) eqn:E; [exact E|].
  apply mem_In, in_or_app. right. left. reflexivity.
Qed.

Lemma gaussian_empty_rows_unbound g_call g_disc st r ny nx ov :
  (0 <= ny)%Z -> (0 <= nx)%Z -> rows (heap st r) = [] ->
  (mem "flux" (colnames (heap st r)) = true ->
   mem "x_stddev" (colnames (heap st r)) = true /\ mem "y_stddev" (colnames (heap st r)) = true) ->
  (mem "flux" (colnames (heap st r)) = false -> mem "amplitude" (colnames (heap st r)) = true) ->
  fst (make_gaussian_sources_image g_call g_disc st (ShapeTuple [ny; nx]) r ov)
  = Err (UnboundLocal "paramnm").
Proof.
  intros Hy Hx Hr Hflux Hamp. unfold make_gaussian_sources_image.
  destruct (mem "flux" (colnames (heap st r))) eqn:F.
  - destruct (Hflux eq_refl) as [Hsx Hsy]. simpl. rewrite Nat.eqb_refl.
    rewrite (flux_to_amplitude_ok _ F Hsx Hsy). simpl. rewrite ?Nat.eqb_refl.
    apply zero_rows_unbound_gen; [exact Hy | exact Hx | |].
    + simpl. unfold set_column. simpl. rewrite Hr.
      destruct (colnames (heap st r)); [discriminate F | reflexivity].
    + apply (params_to_set_nonempty _ _ "amplitude"); [|reflexivity].
      unfold del_column. simpl. rewrite mem_remove_other by discriminate. exact (mem_set_column (heap st r) "amplitude" []%list).
  - rewrite (Hamp eq_refl). simpl.
    apply zero_rows_unbound_gen; [exact Hy | exact Hx | exact Hr |].
    apply (params_to_set_nonempty _ _ "amplitude"); [exact (Hamp eq_refl) | reflexivity].
Qed.

(** X9: an empty source table (no rows) that passes the column checks makes
    the call raise the [finally] clause's unbound-local error instead of
    returning an image of zeros. *)
Theorem gaussian_empty_table_raises g_call g_disc st r ny nx ov :
  (0 <= ny)%Z -> (0 <= nx)%Z -> rows (heap st r) = [] ->
  (mem "flux" (colnames (heap st r)) = true ->
   mem "x_stddev" (colnames (heap st r)) = true /\ mem "y_stddev" (colnames (heap st r)) = true) ->
  (mem "flux" (colnames (heap st r)) = false -> mem "amplitude" (colnames (heap st r)) = true) ->
  fst (make_gaussian_sources_image g_call g_disc st (ShapeTuple [ny; nx]) r ov)
  = Err (UnboundLocal "paramnm").
Proof. apply gaussian_empty_rows_unbound. Qed.

Lemma gaussian_empty_table_raises_witness :
  ((0 <= 2)%Z /\ (0 <= 2)%Z
   /\ rows (heap {| heap := fun _ => {| colnames := ["amplitude"; "x_mean"]; rows := [] |};
                   next_ref := 1 |} 0) = [])
  /\ fst (make_gaussian_sources_image (fun _ _ _ => None) (fun _ _ _ _ => None)
        {| heap := fun _ => {| colnames := ["amplitude"; "x_mean"]; rows := [] |}; next_ref := 1 |}
        (ShapeTuple [2; 2]%Z) 0 1%float) = Err (UnboundLocal "paramnm").
Proof.
  split; [split; [lia | split; [lia | reflexivity]]|].
  apply gaussian_empty_table_raises; [lia | lia | reflexivity | discriminate | reflexivity].
Defined.

(** ** Properties of make_noise_image *)

(** X10: the argument checks of make_noise_image, in the order the code
    makes them: a missing mean raises whatever the other arguments; then an
    invalid [random_state] raises the ValueError of check_random_state;
    with a valid one, Gaussian noise without a stddev raises, and any type
    other than gaussian and poisson raises the KeyError of the message
    formatting, not the ValueError the message was meant for. *)
Theorem noise_image_argument_errors RNG global_rng seeded normal poisson_lam image_shape type mu sd rs :
  make_noise_image RNG global_rng seeded normal poisson_lam image_shape type None sd rs = Err' MeanNotInput
  /\ (forall e, check_random_state global_rng seeded rs = Err e ->
      make_noise_image RNG global_rng seeded normal poisson_lam image_shape type (Some mu) sd rs
      = Err' (Base e))
  /\ (forall g, check_random_state global_rng seeded rs = Ok g ->
      make_noise_image RNG global_rng seeded normal poisson_lam image_shape "gaussian" (Some mu) None rs
      = Err' StddevNotInput
      /\ (type <> "gaussian" -> type <> "poisson" ->
          make_noise_image RNG global_rng seeded normal poisson_lam image_shape type (Some mu) sd rs
          = Err' (Base (KeyError invalid_type_field)))).
Proof.
  split; [reflexivity|]. unfold make_noise_image.
  split; [intros e He; rewrite He; reflexivity|].
  intros g Hg. rewrite Hg. split; [reflexivity|].
  intros Hga Hpo. simpl.
  rewrite (proj2 (String.eqb_neq type "gaussian") Hga), (proj2 (String.eqb_neq type "poisson") Hpo).
  reflexivity.
Qed.

Lemma noise_image_argument_errors_witness :
  (check_random_state tt ex_seeded (RSSeed 12345) = Ok tt
   /\ "uniform" <> "gaussian" /\ "uniform" <> "poisson")
  /\ make_noise_image unit tt ex_seeded (fun _ _ _ _ => None) (fun _ _ _ => None) [2; 2]%Z "uniform"
       (Some 0%float) (Some 1%float) (RSSeed 12345) = Err' (Base (KeyError invalid_type_field)).
Proof.
  assert (Hc : check_random_state tt ex_seeded (RSSeed 12345) = Ok tt) by reflexivity.
  assert (Hg : "uniform" <> "gaussian") by discriminate.
  assert (Hp : "uniform" <> "poisson") by discriminate.
  split; [exact (conj Hc (conj Hg Hp))|].
  exact (proj2 (proj2 (proj2 (noise_image_argument_errors unit tt ex_seeded (fun _ _ _ _ => None)
    (fun _ _ _ => None) [2; 2]%Z "uniform" 0%float (Some 1%float) (RSSeed 12345))) tt Hc) Hg Hp).
Defined.

(** ** Properties of the random tables *)

Lemma set_column_fresh t c vals n :
  mem c (colnames t) = false -> List.length vals = n ->
  (colnames t <> [] -> List.length (rows t) = n) ->
  colnames (set_column t c vals) = (colnames t ++ [c])%list
  /\ List.length (rows (set_column t c vals)) = n.
Proof.
  intros Hm Hv Hr. unfold set_column. simpl. rewrite Hm. split; [reflexivity|].
  destruct (colnames t) as [|a l]; [rewrite length_map; exact Hv|].
  assert (R : List.length (rows t) = n) by (apply Hr; discriminate).
  rewrite zip_with_length_eq; [exact R | transitivity n; [exact R | symmetry; exact Hv]].
Qed.

Lemma mem_app q l1 l2 : mem q (l1 ++ l2) = mem q l1 || mem q l2.
Proof. unfold mem. apply existsb_app. Qed.

Lemma draw_column_spec RNG uniform t name lo hi n g t' g' :
  draw_column RNG uniform t name lo hi n g = Ok' (t', g') ->
  exists vals, uniform g lo hi n = Some (vals, g') /\ t' = set_column t name vals.
Proof.
  unfold draw_column. destruct (uniform g lo hi n) as [[vals g1]|]; intros H; [|discriminate H].
  inversion H; subst. eauto.
Qed.

Lemma draw_range_spec RNG uniform t name r n g t' g' :
  draw_range RNG uniform t name r n g = Ok' (t', g') ->
  exists lo hi rest, r = lo :: hi :: rest /\ draw_column RNG uniform t name lo hi n g = Ok' (t', g').
Proof.
  unfold draw_range, bounds. destruct r as [|lo [|hi rest]]; simpl; try discriminate. eauto.
Qed.

Section RandomTables.
Variable RNG : Type.
Variable uniform : RNG -> float -> float -> Z -> option (list float * RNG).
Variable n : Z.
Hypothesis uniform_size : forall g lo hi vals g',
  uniform g lo hi n = Some (vals, g') -> List.length vals = Z.to_nat n.

Lemma draw_column_fresh t name lo hi g t' g' :
  mem name (colnames t) = false -> (colnames t <> [] -> List.length (rows t) = Z.to_nat n) ->
  draw_column RNG uniform t name lo hi n g = Ok' (t', g') ->
  colnames t' = (colnames t ++ [name])%list /\ List.length (rows t') = Z.to_nat n.
Proof.
  intros Hm Hr H. destruct (draw_column_spec _ _ _ _ _ _ _ _ _ _ H) as (vals & U & ->).
  apply set_column_fresh; [exact Hm | eapply uniform_size; exact U | exact Hr].
Qed.

Lemma draw_range_fresh t name r g t' g' :
  mem name (colnames t) = false -> (colnames t <> [] -> List.length (rows t) = Z.to_nat n) ->
  draw_range RNG uniform t name r n g = Ok' (t', g') ->
  colnames t' = (colnames t ++ [name])%list /\ List.length (rows t') = Z.to_nat n.
Proof.
  intros Hm Hr H. destruct (draw_range_spec _ _ _ _ _ _ _ _ _ H) as (lo & hi & rest & _ & D).
  eapply draw_column_fresh; eassumption.
Qed.

Lemma fill_ranges_columns names ranges : forall sources g t,
  NoDup (map fst ranges) ->
  (forall k, In k (map fst ranges) -> mem k (colnames sources) = false) ->
  (colnames sources <> [] -> List.length (rows sources) = Z.to_nat n) ->
  fill_ranges RNG uniform names n ranges sources g = Ok t ->
  colnames t = (colnames sources ++ map fst ranges)%list
  /\ (colnames t <> [] -> List.length (rows t) = Z.to_nat n).
Proof.
  induction ranges as [|[pnm [lower upper]] ranges IH]; intros sources g t Hnd Hfresh Hr H.
  - simpl in H. inversion H; subst. rewrite app_nil_r. split; [reflexivity | exact Hr].
  - simpl in H. destruct (negb (mem pnm names)); [discriminate H|].
    destruct (uniform g lower upper n) as [[vals g1]|] eqn:U; [|discriminate H].
    simpl in Hnd. inversion Hnd as [|? ? Hnotin Hnd']; subst.
    destruct (set_column_fresh sources pnm vals (Z.to_nat n) (Hfresh pnm (or_introl eq_refl))
                (uniform_size _ _ _ _ _ U) Hr) as [C L].
    destruct (IH _ _ _ Hnd' ltac:(intros k Hk; rewrite C, mem_app, (Hfresh k (or_intror Hk));
                                  simpl; destruct (String.eqb k pnm) eqn:E; [|reflexivity];
                                  apply String.eqb_eq in E; subst; contradiction)
                (fun _ => L) H) as [C' L'].
    split; [rewrite C', C, <- app_assoc; reflexivity | exact L'].
Qed.

End RandomTables.

(** X11: a table made by make_random_models_table has one column per entry
    of param_ranges, in its order, and n_sources rows when the draws return
    n_sources values each. *)
Theorem random_models_table_shape RNG global_rng seeded uniform model n ranges rs t :
  (forall g lo hi vals g', uniform g lo hi n = Some (vals, g') -> List.length vals = Z.to_nat n) ->
  NoDup (map fst ranges) -> ranges <> [] ->
  make_random_models_table RNG global_rng seeded uniform model n ranges rs = Ok t ->
  colnames t = map fst ranges /\ List.length (rows t) = Z.to_nat n.
Proof.
  intros Hn Hnd Hne H. unfold make_random_models_table in H.
  destruct (check_random_state global_rng seeded rs) as [g|e]; [|discriminate H].
  destruct (fill_ranges_columns RNG uniform n Hn (param_names model) ranges {| colnames := []; rows := [] |} g t Hnd
              ltac:(intros; reflexivity) ltac:(intros C; contradiction C; reflexivity) H) as [C L].
  simpl in C. split; [exact C|]. apply L. rewrite C.
  destruct ranges as [|[k v] ranges]; [contradiction Hne; reflexivity | discriminate].
Qed.

Lemma random_models_table_shape_witness :
  ((forall g lo hi vals g', np_uniform ex_gen g lo hi 2 = Some (vals, g') -> List.length vals = Z.to_nat 2)
   /\ NoDup (map fst [("amplitude", (0%float, 1%float)); ("x_mean", (0%float, 5%float))])
   /\ [("amplitude", (0%float, 1%float)); ("x_mean", (0%float, 5%float))] <> []
   /\ make_random_models_table unit tt ex_seeded (np_uniform ex_gen) ex_model 2
        [("amplitude", (0%float, 1%float)); ("x_mean", (0%float, 5%float))] (RSSeed 12345)
      = Ok {| colnames := ["amplitude"; "x_mean"];
              rows := [upd (upd empty_row "amplitude" 0%float) "x_mean" 0%float;
                       upd (upd empty_row "amplitude" 0%float) "x_mean" 0%float] |})
  /\ colnames {| colnames := ["amplitude"; "x_mean"];
                 rows := [upd (upd empty_row "amplitude" 0%float) "x_mean" 0%float;
                          upd (upd empty_row "amplitude" 0%float) "x_mean" 0%float] |}
     = ["amplitude"; "x_mean"].
Proof.
  assert (Hn : forall g lo hi vals g', np_uniform ex_gen g lo hi 2 = Some (vals, g') ->
                 List.length vals = Z.to_nat 2).
  { intros g lo hi vals g'. unfold np_uniform.
    destruct (negb (is_finite (hi - lo)%float)); simpl; [discriminate|].
    intros H. inversion H. reflexivity. }
  assert (Hnd : NoDup (map fst [("amplitude", (0%float, 1%float)); ("x_mean", (0%float, 5%float))])).
  { simpl. constructor; [simpl; intros [H|H]; [discriminate | contradiction]|].
    constructor; [simpl; tauto | constructor]. }
  assert (Hne : [("amplitude", (0%float, 1%float)); ("x_mean", (0%float, 5%float))] <> []) by discriminate.
  assert (H : make_random_models_table unit tt ex_seeded (np_uniform ex_gen) ex_model 2
        [("amplitude", (0%float, 1%float)); ("x_mean", (0%float, 5%float))] (RSSeed 12345)
      = Ok {| colnames := ["amplitude"; "x_mean"];
              rows := [upd (upd empty_row "amplitude" 0%float) "x_mean" 0%float;
                       upd (upd empty_row "amplitude" 0%float) "x_mean" 0%float] |})
    by reflexivity.
  split; [exact (conj Hn (conj Hnd (conj Hne H)))|].
  exact (proj1 (random_models_table_shape unit tt ex_seeded (np_uniform ex_gen) ex_model 2 _ (RSSeed 12345) _ Hn Hnd Hne H)).
Defined.

Lemma gaussians_table_columns RNG global_rng seeded uniform n flux_range xmean_range ymean_range
  xstddev_range ystddev_range amplitude_range rs t :
  (forall g lo hi vals g', uniform g lo hi n = Some (vals, g') -> List.length vals = Z.to_nat n) ->
  make_random_gaussians_table RNG global_rng seeded uniform n flux_range xmean_range ymean_range
    xstddev_range ystddev_range amplitude_range rs = Ok' t ->
  colnames t = [match amplitude_range with None => "flux" | Some _ => "amplitude" end;
                "x_mean"; "y_mean"; "x_stddev"; "y_stddev"; "theta"]
  /\ List.length (rows t) = Z.to_nat n.
Proof.
  intros Hn H. unfold make_random_gaussians_table in H.
  destruct (check_random_state global_rng seeded rs) as [g|e]; cbn [lift bind'] in H; [|discriminate H].
  destruct (match amplitude_range with
            | None => draw_range RNG uniform {| colnames := []; rows := [] |} "flux" flux_range n g
            | Some ar => draw_range RNG uniform {| colnames := []; rows := [] |} "amplitude" ar n g
            end) as [[t1 g1]|e] eqn:E1; cbn [bind' fst snd] in H; [|discriminate H].
  assert (C1 : colnames t1 = [match amplitude_range with None => "flux" | Some _ => "amplitude" end] /\ List.length (rows t1) = Z.to_nat n).
  { destruct amplitude_range as [ar|];
      (refine (draw_range_fresh RNG uniform n Hn _ _ _ _ _ _ _ _ E1);
       [reflexivity | intros C; contradiction C; reflexivity]). }
  destruct C1 as [C1 L1].
  destruct (draw_range RNG uniform t1 "x_mean" xmean_range n g1) as [[t2 g2]|e] eqn:E2;
    cbn [bind' fst snd] in H; [|discriminate H].
  destruct (draw_range_fresh RNG uniform n Hn t1 "x_mean" xmean_range g1 t2 g2
              ltac:(rewrite C1; destruct amplitude_range; reflexivity) (fun _ => L1) E2) as [C2 L2].
  rewrite C1 in C2. simpl in C2.
  destruct (draw_range RNG uniform t2 "y_mean" ymean_range n g2) as [[t3 g3]|e] eqn:E3;
    cbn [bind' fst snd] in H; [|discriminate H].
  destruct (draw_range_fresh RNG uniform n Hn t2 "y_mean" ymean_range g2 t3 g3
              ltac:(rewrite C2; destruct amplitude_range; reflexivity) (fun _ => L2) E3) as [C3 L3].
  rewrite C2 in C3. simpl in C3.
  destruct (draw_range RNG uniform t3 "x_stddev" xstddev_range n g3) as [[t4 g4]|e] eqn:E4;
    cbn [bind' fst snd] in H; [|discriminate H].
  destruct (draw_range_fresh RNG uniform n Hn t3 "x_stddev" xstddev_range g3 t4 g4
              ltac:(rewrite C3; destruct amplitude_range; reflexivity) (fun _ => L3) E4) as [C4 L4].
  rewrite C3 in C4. simpl in C4.
  destruct (draw_range RNG uniform t4 "y_stddev" ystddev_range n g4) as [[t5 g5]|e] eqn:E5;
    cbn [bind' fst snd] in H; [|discriminate H].
  destruct (draw_range_fresh RNG uniform n Hn t4 "y_stddev" ystddev_range g4 t5 g5
              ltac:(rewrite C4; destruct amplitude_range; reflexivity) (fun _ => L4) E5) as [C5 L5].
  rewrite C4 in C5. simpl in C5.
  destruct (draw_column RNG uniform t5 "theta" 0%float (2 * np_pi)%float n g5) as [[t6 g6]|e] eqn:E6;
    cbn [bind' fst snd] in H; [|discriminate H].
  destruct (draw_column_fresh RNG uniform n Hn t5 "theta" 0%float (2 * np_pi)%float g5 t6 g6
              ltac:(rewrite C5; destruct amplitude_range; reflexivity) (fun _ => L5) E6) as [C6 L6].
  inversion H; subst t6. rewrite C6, C5. split; [reflexivity | exact L6].
Qed.

(** X12: a table made by make_random_gaussians_table has the columns flux
    (amplitude when amplitude_range is given), x_mean, y_mean, x_stddev,
    y_stddev and theta, in this order, and n_sources rows when the draws
    return n_sources values each. *)
Theorem random_gaussians_table_shape RNG global_rng seeded uniform n flux_range xmean_range ymean_range
  xstddev_range ystddev_range amplitude_range rs t :
  (forall g lo hi vals g', uniform g lo hi n = Some (vals, g') -> List.length vals = Z.to_nat n) ->
  make_random_gaussians_table RNG global_rng seeded uniform n flux_range xmean_range ymean_range
    xstddev_range ystddev_range amplitude_range rs = Ok' t ->
  colnames t = [match amplitude_range with None => "flux" | Some _ => "amplitude" end;
                "x_mean"; "y_mean"; "x_stddev"; "y_stddev"; "theta"]
  /\ List.length (rows t) = Z.to_nat n.
Proof. apply gaussians_table_columns. Qed.

Lemma random_gaussians_table_shape_witness :
  ((forall g lo hi vals g', np_uniform ex_gen g lo hi 3 = Some (vals, g') -> List.length vals = Z.to_nat 3)
   /\ make_random_gaussians_table unit tt ex_seeded (np_uniform ex_gen) 3 [500; 1000]%float [0; 500]%float
        [0; 300]%float [1; 5]%float [1; 5]%float None (RSSeed 12345)
      = Ok' (ok_table (make_random_gaussians_table unit tt ex_seeded (np_uniform ex_gen) 3 [500; 1000]%float
               [0; 500]%float [0; 300]%float [1; 5]%float [1; 5]%float None (RSSeed 12345))))
  /\ List.length (rows (ok_table (make_random_gaussians_table unit tt ex_seeded (np_uniform ex_gen) 3
        [500; 1000]%float [0; 500]%float [0; 300]%float [1; 5]%float [1; 5]%float None (RSSeed 12345)))) = 3.
Proof.
  assert (Hn : forall g lo hi vals g', np_uniform ex_gen g lo hi 3 = Some (vals, g') ->
                 List.length vals = Z.to_nat 3).
  { intros g lo hi vals g'. unfold np_uniform.
    destruct (negb (is_finite (hi - lo)%float)); simpl; [discriminate|].
    intros H. inversion H. reflexivity. }
  assert (H : make_random_gaussians_table unit tt ex_seeded (np_uniform ex_gen) 3 [500; 1000]%float [0; 500]%float
        [0; 300]%float [1; 5]%float [1; 5]%float None (RSSeed 12345)
      = Ok' (ok_table (make_random_gaussians_table unit tt ex_seeded (np_uniform ex_gen) 3 [500; 1000]%float
               [0; 500]%float [0; 300]%float [1; 5]%float [1; 5]%float None (RSSeed 12345))))
    by reflexivity.
  split; [exact (conj Hn H)|].
  exact (proj2 (random_gaussians_table_shape unit tt ex_seeded (np_uniform ex_gen) 3 _ _ _ _ _ None (RSSeed 12345) _ Hn H)).
Defined.

(** X13: rendering a table made by make_random_gaussians_table with
    n_sources = 0 raises the unbound-local error of the [finally] clause of
    make_model_sources_image, whichever ranges were given. *)
Theorem empty_random_table_render_raises RNG global_rng seeded uniform flux_range xmean_range ymean_range
  xstddev_range ystddev_range amplitude_range rs t g_call g_disc st r ny nx ov :
  (forall g lo hi vals g', uniform g lo hi 0%Z = Some (vals, g') -> List.length vals = 0) ->
  make_random_gaussians_table RNG global_rng seeded uniform 0 flux_range xmean_range ymean_range
    xstddev_range ystddev_range amplitude_range rs = Ok' t ->
  heap st r = t -> (0 <= ny)%Z -> (0 <= nx)%Z ->
  fst (make_gaussian_sources_image g_call g_disc st (ShapeTuple [ny; nx]) r ov)
  = Err (UnboundLocal "paramnm").
Proof.
  intros Hn H Ht Hy Hx.
  destruct (gaussians_table_columns RNG global_rng seeded uniform 0 _ _ _ _ _ _ rs t Hn H) as [C L].
  apply gaussian_empty_rows_unbound; [exact Hy | exact Hx | | |]; rewrite Ht.
  - destruct (rows t); [reflexivity | discriminate L].
  - rewrite C. intros _. destruct amplitude_range; split; reflexivity.
  - rewrite C. destruct amplitude_range; intros E; [reflexivity | discriminate E].
Qed.

Lemma empty_random_table_render_raises_witness :
  ((forall g lo hi vals g', np_uniform ex_gen g lo hi 0%Z = Some (vals, g') -> List.length vals = 0)
   /\ make_random_gaussians_table unit tt ex_seeded (np_uniform ex_gen) 0 [500; 1000]%float [0; 500]%float
        [0; 300]%float [1; 5]%float [1; 5]%float None (RSSeed 12345)
      = Ok' (ok_table (make_random_gaussians_table unit tt ex_seeded (np_uniform ex_gen) 0 [500; 1000]%float
               [0; 500]%float [0; 300]%float [1; 5]%float [1; 5]%float None (RSSeed 12345))))
  /\ fst (make_gaussian_sources_image (fun _ _ _ => None) (fun _ _ _ _ => None)
        {| heap := fun _ => ok_table (make_random_gaussians_table unit tt ex_seeded (np_uniform ex_gen) 0
                 [500; 1000]%float [0; 500]%float [0; 300]%float [1; 5]%float [1; 5]%float None (RSSeed 12345));
           next_ref := 1 |} (ShapeTuple [300; 500]%Z) 0 1%float)
     = Err (UnboundLocal "paramnm").
Proof.
  assert (Hn : forall g lo hi vals g', np_uniform ex_gen g lo hi 0%Z = Some (vals, g') ->
                 List.length vals = 0).
  { intros g lo hi vals g'. unfold np_uniform.
    destruct (negb (is_finite (hi - lo)%float)); simpl; [discriminate|].
    intros H. inversion H. reflexivity. }
  assert (H : make_random_gaussians_table unit tt ex_seeded (np_uniform ex_gen) 0 [500; 1000]%float [0; 500]%float
        [0; 300]%float [1; 5]%float [1; 5]%float None (RSSeed 12345)
      = Ok' (ok_table (make_random_gaussians_table unit tt ex_seeded (np_uniform ex_gen) 0 [500; 1000]%float
               [0; 500]%float [0; 300]%float [1; 5]%float [1; 5]%float None (RSSeed 12345))))
    by reflexivity.
  split; [exact (conj Hn H)|].
  exact (empty_random_table_render_raises unit tt ex_seeded (np_uniform ex_gen) _ _ _ _ _ None (RSSeed 12345) _
           (fun _ _ _ => None) (fun _ _ _ _ => None)
           {| heap := fun _ => ok_table (make_random_gaussians_table unit tt ex_seeded (np_uniform ex_gen) 0
                 [500; 1000]%float [0; 500]%float [0; 300]%float [1; 5]%float [1; 5]%float None (RSSeed 12345));
              next_ref := 1 |} 0 300 500 1%float Hn H eq_refl ltac:(lia) ltac:(lia)).
Defined.

(** X14: on success apply_poisson_noise returns an array of the shape of its
    input: one output row per input row, each of the input row's length. *)
Theorem poisson_noise_keeps_shape RNG draw1 data g out :
  apply_poisson_noise RNG draw1 data g = Ok out ->
  Forall2 (fun row o => List.length o = List.length row) data out.
Proof.
  unfold apply_poisson_noise. destruct (any_negative data); [discriminate|].
  destruct (np_poisson RNG draw1 data g) as [[o g']|e] eqn:P; intros H; [|discriminate H].
  inversion H; subst o. exact (proj2 (np_poisson_spec RNG draw1 data g) out g' P).
Qed.

Lemma poisson_noise_keeps_shape_witness :
  apply_poisson_noise unit ex_draw1 [[1; 2; 3]; [4; 5; 6]]%float tt = Ok [[1; 2; 3]; [4; 5; 6]]%float
  /\ Forall2 (fun row o => List.length o = List.length row) [[1; 2; 3]; [4; 5; 6]]%float
       [[1; 2; 3]; [4; 5; 6]]%float.
Proof.
  assert (H : apply_poisson_noise unit ex_draw1 [[1; 2; 3]; [4; 5; 6]]%float tt
              = Ok [[1; 2; 3]; [4; 5; 6]]%float) by reflexivity.
  split; [exact H | exact (poisson_noise_keeps_shape unit ex_draw1 _ tt _ H)].
Defined.
